(** * claude-code-router: the gateway's registry, client cache, pipeline and
      configuration loader, embedded from [src/utils/index.ts] and
      [src/index.ts]. *)

From Stdlib Require Import ssreflect.
From stdpp Require Import base numbers strings list gmap pretty.

Set Warnings "-register-all,-rewrite-rw,-clear-no-such-hyp".
Local Open Scope Z_scope.

(** ** JavaScript values *)

(** A JSON value, as [JSON.parse] produces it. *)
Inductive json : Type :=
  | JNull
  | JBool (b : bool)
  | JNum (n : Z)
  | JStr (s : string)
  | JArr (l : list json)
  | JObj (m : list (string * json)).

(** JavaScript truthiness ([if (x)], [!x], [x && y]); [None] is [undefined]. *)
Definition truthy_str (s : string) : bool := negb (String.eqb s "").

Definition truthy_json (v : json) : bool :=
  match v with
  | JNull => false
  | JBool b => b
  | JNum n => negb (n =? 0)
  | JStr s => truthy_str s
  | JArr _ => true
  | JObj _ => true
  end.

Definition truthy {A} (t : A -> bool) (o : option A) : bool :=
  match o with
  | Some a => t a
  | None => false
  end.

(** A thrown value: an [Error] object with its [name] and [message]. *)
Record exn : Type := mkExn { exn_name : string; exn_message : string }.

Definition Error (message : string) : exn := mkExn "Error" message.

(** ** [Map]: keys in insertion order; [set] on a present key keeps its place *)

Module JsMap.
Section ops.
Context {V : Type}.

Definition t : Type := list (string * V).

Definition empty : t := [].

Fixpoint get (k : string) (m : t) : option V :=
  match m with
  | [] => None
  | (k', v) :: m' => if String.eqb k' k then Some v else get k m'
  end.

Fixpoint set (k : string) (v : V) (m : t) : t :=
  match m with
  | [] => [(k, v)]
  | (k', v') :: m' =>
      if String.eqb k' k then (k, v) :: m' else (k', v') :: set k v m'
  end.

Definition size (m : t) : nat := length m.

(** [m.values().next().value] *)
Definition first_value (m : t) : option V :=
  match m with
  | [] => None
  | (_, v) :: _ => Some v
  end.
End ops.
Arguments t : clear implicits.
End JsMap.

(** ** [LRUCache] of the lru-cache package, with the options [max] and [ttl]

Entries are kept most recently used first.  An entry's age runs from the
[set] that stored it; [get] refreshes recency but not age.  A stale entry
is dropped by the [get] that finds it; an entry whose start time is 0 counts
as having no time to live and is never stale. *)

Module LRU.
Section ops.
Context {V : Type}.

Record entry : Type := mkEntry { key : string; value : V; start : Z }.

Record t : Type := mkCache { max : nat; ttl : Z; entries : list entry }.

Definition create (max : nat) (ttl : Z) : t := mkCache max ttl [].

Definition has_key (k : string) (e : entry) : bool := String.eqb (key e) k.

Definition find (k : string) (l : list entry) : option entry :=
  List.find (has_key k) l.

Definition remove (k : string) (l : list entry) : list entry :=
  List.filter (fun e => negb (has_key k e)) l.

Definition isStale (c : t) (e : entry) (now : Z) : bool :=
  negb (ttl c =? 0) && negb (start e =? 0) && (ttl c <? now - start e).

Definition get (k : string) (now : Z) (c : t) : option V * t :=
  match find k (entries c) with
  | None => (None, c)
  | Some e =>
      if isStale c e now
      then (None, mkCache (max c) (ttl c) (remove k (entries c)))
      else (Some (value e), mkCache (max c) (ttl c) (e :: remove k (entries c)))
  end.

Definition set (k : string) (v : V) (now : Z) (c : t) : t :=
  let fresh := mkEntry k v now in
  match find k (entries c) with
  | Some _ => mkCache (max c) (ttl c) (fresh :: remove k (entries c))
  | None =>
      if (max c <=? length (entries c))%nat
      then mkCache (max c) (ttl c) (fresh :: removelast (entries c))
      else mkCache (max c) (ttl c) (fresh :: entries c)
  end.

Definition keys (c : t) : list string := key <$> entries c.
Definition size (c : t) : nat := length (entries c).
End ops.
Arguments entry : clear implicits.
Arguments t : clear implicits.
End LRU.

(** ** Data of [src/index.ts] *)

Record ModelProvider : Type := mkProvider {
  name : string;
  api_base_url : string;
  api_key : string;
  models : list string;
}.

Record RouterConfig : Type := mkRouter {
  background : option string;
  think : option string;
  longContext : option string;
}.

Record Config : Type := mkConfig {
  OPENAI_API_KEY : option string;
  OPENAI_BASE_URL : option string;
  OPENAI_MODEL : option string;
  cfg_Providers : option (list ModelProvider);
  cfg_Router : option RouterConfig;
}.

(** An [OpenAI] client object.  [oid] is the identity of the object: two
    clients are the same instance exactly when their [oid]s agree. *)
Record OpenAI : Type := mkOpenAI {
  oid : nat;
  baseURL : string;
  apiKey : string;
  httpAgent : option string;
}.

Record Body : Type := mkBody {
  body_model : option string;
  body_rest : list (string * json);
}.

Record Request : Type := mkRequest {
  req_config : option Config;
  req_provider : option string;
  req_body : Body;
}.

Inductive ConsoleLine : Type :=
  | console_log (text : string) (arg : option string)
  | console_error (text : string) (e : exn).

(** The state the service holds while it runs. *)
Record World : Type := mkWorld {
  env : gmap string string;
  clock : Z;
  Providers : JsMap.t ModelProvider;
  providerCache : LRU.t OpenAI;
  next_oid : nat;
  console : list ConsoleLine;
  res : list string;
}.

Definition set_clock (now : Z) (w : World) : World :=
  mkWorld (env w) now (Providers w) (providerCache w) (next_oid w) (console w) (res w).

Definition set_cache (c : LRU.t OpenAI) (w : World) : World :=
  mkWorld (env w) (clock w) (Providers w) c (next_oid w) (console w) (res w).

Definition set_next_oid (n : nat) (w : World) : World :=
  mkWorld (env w) (clock w) (Providers w) (providerCache w) n (console w) (res w).

Definition set_output (l : list ConsoleLine) (r : list string) (w : World) : World :=
  mkWorld (env w) (clock w) (Providers w) (providerCache w) (next_oid w) l r.

Definition add_console (l : ConsoleLine) (w : World) : World :=
  mkWorld (env w) (clock w) (Providers w) (providerCache w) (next_oid w)
          (console w ++ [l]) (res w).

Definition add_res (chunk : string) (w : World) : World :=
  mkWorld (env w) (clock w) (Providers w) (providerCache w) (next_oid w)
          (console w) (res w ++ [chunk]).

(** ** Computations that change the world and may throw *)

Inductive outcome (A : Type) : Type :=
  | Return (a : A)
  | Throw (e : exn).
Arguments Return {A} a.
Arguments Throw {A} e.

Definition M (A : Type) : Type := World -> World * outcome A.

Definition ret {A} (a : A) : M A := fun w => (w, Return a).
Definition throw {A} (e : exn) : M A := fun w => (w, Throw e).

Definition bind {A B} (m : M A) (f : A -> M B) : M B :=
  fun w =>
    match m w with
    | (w', Return a) => f a w'
    | (w', Throw e) => (w', Throw e)
    end.

Definition try_catch {A} (m : M A) (handler : exn -> M A) : M A :=
  fun w =>
    match m w with
    | (w', Throw e) => handler e w'
    | r => r
    end.

Definition gets {A} (f : World -> A) : M A := fun w => (w, Return (f w)).
Definition modify (f : World -> World) : M unit := fun w => (f w, Return tt).

Notation "'let*' x := m 'in' k" := (bind m (fun x => k))
  (at level 10, x name, m at level 100, k at level 200).
Notation "m >> k" := (bind m (fun _ => k))
  (at level 65, right associativity).

(** ** [getOpenAICommonOptions] *)

(** The agent [new HttpsProxyAgent(url)] is given by its URL, [None] being
    no agent.  The URL is taken to be one the constructor accepts; on a
    string that is not a URL it throws. *)
Definition getOpenAICommonOptions (env : gmap string string) : option string :=
  if truthy truthy_str (env !! "PROXY_URL") then env !! "PROXY_URL"
  else if truthy truthy_str (env !! "HTTPS_PROXY") then env !! "HTTPS_PROXY"
  else None.

(** ** [getProviderInstance] *)

(** The constructor of the client takes [baseURL || "https://api.openai.com/v1"]. *)
Definition openai_baseURL (url : string) : string :=
  if truthy_str url then url else "https://api.openai.com/v1".

Definition new_OpenAI (provider : ModelProvider) : M OpenAI :=
  let* n := gets next_oid in
  let* agent := gets (fun w => getOpenAICommonOptions (env w)) in
  modify (set_next_oid (S n)) >>
  ret (mkOpenAI n (openai_baseURL (api_base_url provider)) (api_key provider) agent).

Definition providerCache_get (k : string) : M (option OpenAI) :=
  let* now := gets clock in
  let* c := gets providerCache in
  let '(v, c') := LRU.get k now c in
  modify (set_cache c') >>
  ret v.

Definition providerCache_set (k : string) (v : OpenAI) : M unit :=
  let* now := gets clock in
  let* c := gets providerCache in
  modify (set_cache (LRU.set k v now c)).

Definition getProviderInstance (providerName : string) : M OpenAI :=
  let* provider := gets (fun w => JsMap.get providerName (Providers w)) in
  match provider with
  | None => throw (Error ("Provider " +:+ providerName +:+ " not found"))
  | Some provider =>
      let* openai := providerCache_get (name provider) in
      match openai with
      | Some openai => ret openai
      | None =>
          let* openai := new_OpenAI provider in
          providerCache_set (name provider) openai >>
          ret openai
      end
  end.

(** ** Startup in [run]: the provider registry *)

Definition str (o : option string) : string := default "" o.

(** [config.OPENAI_API_KEY && config.OPENAI_BASE_URL && config.OPENAI_MODEL] *)
Definition has_default_triple (config : Config) : bool :=
  truthy truthy_str (OPENAI_API_KEY config)
  && truthy truthy_str (OPENAI_BASE_URL config)
  && truthy truthy_str (OPENAI_MODEL config).

(** [Providers.set(provider.name, provider)], the body of the [forEach]. *)
Definition register (m : JsMap.t ModelProvider) (provider : ModelProvider)
    : JsMap.t ModelProvider :=
  JsMap.set (name provider) provider m.

Definition registerProviders (config : Config) : JsMap.t ModelProvider :=
  let Providers : JsMap.t ModelProvider :=
    match cfg_Providers config with
    | Some l => foldl register JsMap.empty l
    | None => JsMap.empty
    end in
  if has_default_triple config
  then
    let defaultProvider :=
      mkProvider "default" (str (OPENAI_BASE_URL config)) (str (OPENAI_API_KEY config))
                 [str (OPENAI_MODEL config)] in
    JsMap.set "default" defaultProvider Providers
  else if (0 <? JsMap.size Providers)%nat then
    match JsMap.first_value Providers with
    | Some defaultProvider => JsMap.set "default" defaultProvider Providers
    | None => Providers
    end
  else Providers.

Definition cache_max : nat := 10.
Definition cache_ttl : Z := 2 * 60 * 60 * 1000.

(** The world right after startup, at clock reading [now]. *)
Definition startup (config : Config) (env : gmap string string) (now : Z) : World :=
  mkWorld env now (registerProviders config) (LRU.create cache_max cache_ttl) 0 [] [].

(** ** The pipeline *)

(** A stage gets the request; [Some req'] is a call of [next()] with the
    request as the stage left it, [None] ends the request in the stage. *)
Definition middleware : Type := Request -> M (option Request).

Definition Completion : Type := list string.

(** The modules [run] imports that are not part of these sources, and the
    backend behind [provider.chat.completions.create].  The stream writer
    is given the response only: it yields the chunks it writes and the error
    it ends with, if any. *)
Class Collaborators : Type := {
  rewriteBody : middleware;
  router : middleware;
  formatRequest : middleware;
  streamOpenAIResponse : Completion -> option string -> Body -> list string * option exn;
  chat_completions_create : OpenAI -> Body -> outcome Completion;
}.

(** Modelled from the spec: the server of [./server] is missing; it keeps
    the stages in a finite ordered sequence, in the order [useMiddleware]
    received them, and a request passes through them in that order. *)
Record Server : Type := mkServer { stages : list middleware }.

Definition createServer : Server := mkServer [].

Definition useMiddleware (m : middleware) (s : Server) : Server :=
  mkServer (stages s ++ [m]).

Fixpoint run_stages (l : list middleware) (req : Request) : M (option Request) :=
  match l with
  | [] => ret (Some req)
  | m :: l' =>
      let* r := m req in
      match r with
      | Some req' => run_stages l' req'
      | None => ret None
      end
  end.

Definition attachConfig (config : Config) : middleware := fun req =>
  modify (add_console (console_log "Middleware triggered for request:"
                                   (body_model (req_body req)))) >>
  ret (Some (mkRequest (Some config) (req_provider req) (req_body req))).

Definition useDefaultModel (config : Config) : middleware := fun req =>
  ret (Some (mkRequest (req_config req) (Some "default")
                       (mkBody (OPENAI_MODEL config) (body_rest (req_body req))))).

(** [config.Router?.background && config.Router?.think && config?.Router?.longContext] *)
Definition router_rules_present (config : Config) : bool :=
  truthy truthy_str (r ← cfg_Router config; background r)
  && truthy truthy_str (r ← cfg_Router config; think r)
  && truthy truthy_str (r ← cfg_Router config; longContext r).

Section gateway.
Context `{Collaborators}.

Definition install_middlewares (config : Config) (server : Server) : Server :=
  let server := useMiddleware (attachConfig config) server in
  let server := useMiddleware rewriteBody server in
  let server :=
    if router_rules_present config
    then useMiddleware router server
    else useMiddleware (useDefaultModel config) server in
  useMiddleware formatRequest server.

(** [req.provider || "default"] *)
Definition or_default (o : option string) : string :=
  if truthy truthy_str o then str o else "default".

Definition lift_outcome {A} (o : outcome A) : M A := fun w => (w, o).

(** [await streamOpenAIResponse(res, completion, model, body)]: the chunks it
    writes to [res], then the error it throws, if any. *)
Definition stream_to_res (completion : Completion) (model : option string)
    (body : Body) : M unit :=
  let '(chunks, err) := streamOpenAIResponse completion model body in
  modify (fun w => foldl (fun w chunk => add_res chunk w) w chunks) >>
  match err with
  | Some e => throw e
  | None => ret tt
  end.

(** The handler of [POST /v1/messages]. *)
Definition post_v1_messages (req : Request) : M unit :=
  try_catch
    (let* provider := getProviderInstance (or_default (req_provider req)) in
     let* completion := lift_outcome (chat_completions_create provider (req_body req)) in
     stream_to_res completion (body_model (req_body req)) (req_body req))
    (fun e => modify (add_console (console_error "Error in OpenAI API call:" e))).

End gateway.

(** ** [readConfigFile] and [writeConfigFile] of [src/utils/index.ts] *)

Record FS : Type := mkFS {
  dirs : gset string;
  files : gmap string string;
}.

(** What the loader touches: the file system, [process.env], the answers
    still to come on standard input, and the prompts written so far. *)
Record IO : Type := mkIO {
  fs : FS;
  process_env : gmap string string;
  stdin : list string;
  stdout : list string;
}.

(** [../constants] is not part of these sources; [JSON.parse] gives [None]
    where it throws, and otherwise the properties [Object.assign] copies. *)
Class ConfigEnv : Type := {
  getConfigFile : option string -> string;
  DEFAULT_CONFIG : gmap string json;
  JSON_parse : string -> option (gmap string json);
  JSON_stringify : gmap string json -> string;
  dirname : string -> string;
}.

Definition requiredFields : list string :=
  ["OPENAI_API_KEY"; "OPENAI_BASE_URL"; "OPENAI_MODEL"].

(** [ensureDir], for a path that is not the name of a regular file and
    whose parent directory exists: [fs.access] then fails exactly when the
    directory is missing, and [fs.mkdir] creates it. *)
Definition ensureDir (dir_path : string) (f : FS) : FS :=
  if bool_decide (dir_path ∈ dirs f) then f
  else mkFS ({[dir_path]} ∪ dirs f) (files f).

(** [question]: the prompt is written and the answer is the next of the
    answers to come; without one the promise never resolves.  The answers
    are the lines that the readline interfaces deliver, one interface per
    prompt: a line that arrives before its prompt is asked is lost with the
    interface of the prompt before. *)
Definition question (query : string) (io : IO) : option (string * IO) :=
  match stdin io with
  | [] => None
  | answer :: rest =>
      Some (answer, mkIO (fs io) (process_env io) rest (stdout io ++ [query]))
  end.

(** The query of the prompt for a field. *)
Definition prompt (field : string) : string := "Enter " +:+ field +:+ ": ".

Section config.
Context `{ConfigEnv}.

(** [writeConfigFile], where the directory of the file can be made (see
    [ensureDir]); otherwise [fs.writeFile] rejects. *)
Definition writeConfigFile (config : gmap string json)
    (customConfigPath : option string) (io : IO) : IO :=
  let configFile := getConfigFile customConfigPath in
  let dirPath := dirname configFile in
  let f := ensureDir dirPath (fs io) in
  mkIO (mkFS (dirs f) (<[configFile := JSON_stringify config]> (files f)))
       (process_env io) (stdin io) (stdout io).

(** The [try { readFile; JSON.parse } catch { }] block: [existingConfig]. *)
Definition read_existing (configFile : string) (f : FS) : gmap string json :=
  match files f !! configFile with
  | Some configContent => default ∅ (JSON_parse configContent)
  | None => ∅
  end.

(** The loop over [requiredFields]. *)
Fixpoint fill_required (fields : list string) (config : gmap string json)
    (needsUpdate : bool) (io : IO) : option (gmap string json * bool * IO) :=
  match fields with
  | [] => Some (config, needsUpdate, io)
  | field :: rest =>
      if truthy truthy_str (process_env io !! field)
      then fill_required rest (<[field := JStr (str (process_env io !! field))]> config)
                         needsUpdate io
      else if negb (truthy truthy_json (config !! field))
      then
        match question (prompt field) io with
        | Some (answer, io') =>
            fill_required rest (<[field := JStr answer]> config) true io'
        | None => None
        end
      else fill_required rest config needsUpdate io
  end.

Definition readConfigFile (customConfigPath : option string) (io : IO)
    : option (gmap string json * IO) :=
  let configFile := getConfigFile customConfigPath in
  let existingConfig := read_existing configFile (fs io) in
  let config := existingConfig ∪ DEFAULT_CONFIG in
  match fill_required requiredFields config false io with
  | Some (config, needsUpdate, io') =>
      if needsUpdate
      then Some (config, writeConfigFile config customConfigPath io')
      else Some (config, io')
  | None => None
  end.

End config.

(** ** The streaming response adapter *)

Module StreamAdapter.

(** What arrives from the backend: a content chunk, or the stop signal. *)
Inductive BackendSignal : Type :=
  | Chunk (c : string)
  | Stop.

Inductive StreamEvent : Type :=
  | start
  | delta (c : string)
  | terminal.

Record Adapter : Type := mkAdapter {
  closed : bool;
  emitted : list StreamEvent;
}.

(** Modelled from the spec: [./utils/stream] (streamOpenAIResponse) is
    missing.  The adapter emits one start event when it is opened, forwards
    each chunk as a content-delta event immediately upon receipt, and on the
    stop signal emits exactly one terminal event and closes the channel;
    nothing is written to a closed channel. *)
Definition open : Adapter := mkAdapter false [start].

Definition step (a : Adapter) (s : BackendSignal) : Adapter :=
  if closed a then a
  else
    match s with
    | Chunk c => mkAdapter false (emitted a ++ [delta c])
    | Stop => mkAdapter true (emitted a ++ [terminal])
    end.

(** The events the caller has received once the signals [l] have arrived. *)
Definition adapt (l : list BackendSignal) : list StreamEvent :=
  emitted (foldl step open l).

Definition is_terminal (e : StreamEvent) : bool :=
  match e with
  | terminal => true
  | _ => false
  end.

End StreamAdapter.

(** ** States the running service can be in *)

(** After startup the only code that touches the registry and the cache is
    [getProviderInstance]; between calls the clock moves forward, and lines
    are written to the console and to the response. *)
Inductive reachable (config : Config) (env0 : gmap string string) : World -> Prop :=
  | reach_startup now :
      reachable config env0 (startup config env0 now)
  | reach_tick w now :
      reachable config env0 w -> clock w <= now ->
      reachable config env0 (set_clock now w)
  | reach_lookup w providerName :
      reachable config env0 w ->
      reachable config env0 (getProviderInstance providerName w).1
  | reach_output w l r :
      reachable config env0 w ->
      reachable config env0 (set_output l r w).

(** The registry as the [forEach] over [config.Providers] leaves it. *)
Definition named_providers (config : Config) : JsMap.t ModelProvider :=
  match cfg_Providers config with
  | Some l => foldl register JsMap.empty l
  | None => JsMap.empty
  end.

(** What holds of the cache in every state: one entry per key, the bound,
    the options, and handles that are distinct objects allocated earlier. *)
Record cache_ok (w : World) : Prop := mkCacheOk {
  ok_keys : NoDup (LRU.keys (providerCache w));
  ok_size : (LRU.size (providerCache w) <= cache_max)%nat;
  ok_max : LRU.max (providerCache w) = cache_max;
  ok_ttl : LRU.ttl (providerCache w) = cache_ttl;
  ok_oids : NoDup ((fun e => oid (LRU.value e)) <$> LRU.entries (providerCache w));
  ok_alloc : Forall (fun e => (oid (LRU.value e) < next_oid w)%nat)
                    (LRU.entries (providerCache w));
}.

(** ** Auxiliary definitions for the statements *)

Definition new_handle (w : World) (provider : ModelProvider) : OpenAI :=
  mkOpenAI (next_oid w) (openai_baseURL (api_base_url provider)) (api_key provider)
           (getOpenAICommonOptions (env w)).

Definition fresh_entry (w : World) (provider : ModelProvider) : LRU.entry OpenAI :=
  LRU.mkEntry (name provider) (new_handle w provider) (clock w).

Definition with_entries (w : World) (l : list (LRU.entry OpenAI)) : World :=
  set_cache (LRU.mkCache (LRU.max (providerCache w)) (LRU.ttl (providerCache w)) l) w.

Inductive lookup_case (w : World) (provider : ModelProvider)
    : World * outcome OpenAI -> Prop :=
  | lookup_hit e :
      LRU.find (name provider) (LRU.entries (providerCache w)) = Some e ->
      LRU.isStale (providerCache w) e (clock w) = false ->
      lookup_case w provider
        (with_entries w (e :: LRU.remove (name provider) (LRU.entries (providerCache w))),
         Return (LRU.value e))
  | lookup_construct l' :
      LRU.find (name provider) (LRU.entries (providerCache w)) = None
        /\ l' = LRU.entries (providerCache w)
      \/ (exists e,
            LRU.find (name provider) (LRU.entries (providerCache w)) = Some e
            /\ LRU.isStale (providerCache w) e (clock w) = true
            /\ l' = LRU.remove (name provider) (LRU.entries (providerCache w))) ->
      lookup_case w provider
        (with_entries (set_next_oid (S (next_oid w)) w)
           (fresh_entry w provider ::
              (if (LRU.max (providerCache w) <=? length l')%nat
               then removelast l' else l')),
         Return (new_handle w provider)).

Definition demo_config : Config :=
  mkConfig None None None
    (Some [mkProvider "p1" "http://a" "k1" ["m1"; "m2"];
           mkProvider "p2" "http://b" "k2" ["m3"]])
    None.

(** Collaborators that do nothing, for running the service on an example:
    the stages pass the request on, the backend always fails. *)
Definition idle_collaborators : Collaborators := {|
  rewriteBody := fun req => ret (Some req);
  router := fun req => ret (Some req);
  formatRequest := fun req => ret (Some req);
  streamOpenAIResponse := fun completion _ _ => (completion, None);
  chat_completions_create := fun _ _ => Throw (mkExn "APIConnectionError" "Connection error.");
|}.

(** The sentence of the specification about the degraded mode: without all
    three routing rules the routing stage gives the request the provider
    ["default"] and the sole model of the provider registered as default. *)
Definition degraded_mode_uses_default_providers_model `{Collaborators}
    (config : Config) (req : Request) : Prop :=
  router_rules_present config = false ->
  exists route req' p m,
    stages (install_middlewares config createServer) !! 2%nat = Some route
    /\ (forall w, route req w = (w, Return (Some req')))
    /\ req_provider req' = Some "default"
    /\ JsMap.get "default" (registerProviders config) = Some p
    /\ models p = [m]
    /\ body_model (req_body req') = Some m.

(** A request that fails: its provider is not registered, or the backend
    call throws. *)
Definition request_fails `{Collaborators} (w : World) (req : Request) : Prop :=
  JsMap.get (or_default (req_provider req)) (Providers w) = None
  \/ exists h w1 e,
       getProviderInstance (or_default (req_provider req)) w = (w1, Return h)
       /\ chat_completions_create h (req_body req) = Throw e.

(** The sentence of the specification about failures of a request: the
    handler returns normally and the caller has been sent a reply. *)
Definition failure_gets_error_reply `{Collaborators}
    (w : World) (req : Request) : Prop :=
  request_fails w req ->
  exists w', post_v1_messages req w = (w', Return tt) /\ res w' ≠ res w.

Definition aliased_config : Config :=
  mkConfig (Some "") (Some "") (Some "")
    (Some [mkProvider "p1" "http://a" "k1" ["m1"]]) None.

Definition some_request (provider : option string) : Request :=
  mkRequest None provider (mkBody (Some "claude-3-5-haiku") [("stream", JBool true)]).

(** A required field that neither [process.env] nor the object [config]
    provides: the condition under which the loop prompts. *)
Definition missing_both (env : gmap string string) (config : gmap string json)
    (field : string) : bool :=
  negb (truthy truthy_str (env !! field))
  && negb (truthy truthy_json (config !! field)).

Definition demo_config_env : ConfigEnv := {|
  getConfigFile := default "/home/u/.claude-code-router/config.json";
  DEFAULT_CONFIG := {[ "log" := JBool false ]};
  JSON_parse := fun _ => None;
  JSON_stringify := fun _ => "{}";
  dirname := fun _ => "/home/u/.claude-code-router";
|}.

(** ** The rest of [src/utils/index.ts] *)

(** [toLowerCase] on the letters A to Z; other bytes are left as they are,
    which no comparison with an ASCII word can tell apart. *)
Definition lower_ascii (c : Ascii.ascii) : Ascii.ascii :=
  let n := Ascii.nat_of_ascii c in
  if (65 <=? n)%nat && (n <=? 90)%nat then Ascii.ascii_of_nat (n + 32) else c.

Fixpoint toLowerCase (s : string) : string :=
  match s with
  | EmptyString => EmptyString
  | String c s' => String (lower_ascii c) (toLowerCase s')
  end.

Definition confirm (query : string) (io : IO) : option (bool * IO) :=
  match question query io with
  | Some (answer, io') => Some (negb (String.eqb (toLowerCase answer) "n"), io')
  | None => None
  end.

(** A string of ASCII characters: one byte and one UTF-16 unit each. *)
Fixpoint ascii_only (s : string) : bool :=
  match s with
  | EmptyString => true
  | String c s' => (Ascii.nat_of_ascii c <? 128)%nat && ascii_only s'
  end.

(** [s.slice(-n)], on the characters of an ASCII string. *)
Definition slice_last (n : nat) (s : string) : string :=
  String.substring (String.length s - n) n s.

Definition or_not_set (o : option string) : string :=
  if truthy truthy_str o then str o else "Not set".

Definition provider_line (index : nat) (provider : ModelProvider) : string :=
  "     " +:+ pretty (index + 1)%nat +:+ ". " +:+ name provider
  +:+ " (" +:+ pretty (length (models provider)) +:+ " models)".

Definition rule_line (label : string) (rule : option string) : list string :=
  if truthy truthy_str rule then [label +:+ str rule] else [].

(** [printConfig]: the lines it passes to [console.log], in order. *)
Definition printConfig `{ConfigEnv} (config : Config)
    (customConfigPath : option string) : list string :=
  ["📋 Configuration loaded:";
   "   Config file: " +:+ getConfigFile customConfigPath;
   "   OPENAI_API_KEY: " +:+
     (if truthy truthy_str (OPENAI_API_KEY config)
      then "***" +:+ slice_last 4 (str (OPENAI_API_KEY config))
      else "Not set");
   "   OPENAI_BASE_URL: " +:+ or_not_set (OPENAI_BASE_URL config);
   "   OPENAI_MODEL: " +:+ or_not_set (OPENAI_MODEL config)]
  ++ match cfg_Providers config with
     | Some l =>
         ("   Providers: " +:+ pretty (length l) +:+ " configured")
         :: imap provider_line l
     | None => []
     end
  ++ match cfg_Router config with
     | Some r =>
         "   Router configuration:"
         :: rule_line "     Background: " (background r)
         ++ rule_line "     Think: " (think r)
         ++ rule_line "     Long Context: " (longContext r)
     | None => []
     end
  ++ [""].

(** ** The rest of [src/index.ts] and [src/cli.ts] *)

(** A JavaScript number as [parseInt] gives it. *)
Inductive jsnum : Type :=
  | Num (z : Z)
  | NaN.

Definition truthy_num (n : jsnum) : bool :=
  match n with
  | Num z => negb (z =? 0)
  | NaN => false
  end.

(** What the code takes from the JavaScript runtime: [JSON.stringify] of a
    value, [parseInt], and the character [Math.random().toString(16)[2]] of
    each draw ([None] where it is [undefined]). *)
Class NodeRuntime : Type := {
  stringify_value : json -> string;
  parseInt : string -> jsnum;
  random_hex_digit : nat -> option Ascii.ascii;
}.




Section startup_files.
Context `{NodeRuntime} `{ConfigEnv}.



End startup_files.

(** The [options] of [parseArgs] and [run]. *)
Record Options : Type := mkOptions {
  opt_config : option string;
  opt_port : option jsnum;
}.

Definition no_options : Options := mkOptions None None.

Section cli.
Context `{NodeRuntime}.

(** The loop of [parseArgs] from index [i] on, as a recursion on the
    arguments from [args[i]] on: a flag with an argument after it takes that
    argument and skips it; anything else, a last flag included, is passed
    over. *)
Fixpoint parse_options (args : list string) (options : Options) : Options :=
  match args with
  | [] => options
  | arg :: rest =>
      match rest with
      | [] => options
      | next :: rest' =>
          if String.eqb arg "--config"
          then parse_options rest' (mkOptions (Some next) (opt_port options))
          else if String.eqb arg "--port"
          then parse_options rest' (mkOptions (opt_config options) (Some (parseInt next)))
          else parse_options rest options
      end
  end.

(** [parseArgs], of [process.argv]. *)
Definition parseArgs (argv : list string) : option string * Options :=
  let args := drop 2 argv in
  (head args, parse_options (tail args) no_options).

(** The port [run] listens on: [options.port || 3456], unless
    [SERVICE_PORT] is set. *)
Definition servicePort (options : Options) (env : gmap string string) : jsnum :=
  let port :=
    if truthy truthy_num (opt_port options)
    then default (Num 3456) (opt_port options)
    else Num 3456 in
  if truthy truthy_str (env !! "SERVICE_PORT")
  then parseInt (str (env !! "SERVICE_PORT"))
  else port.

End cli.

(** The options of the first argument where it has them, else of the second. *)
Definition overlay (later earlier : Options) : Options :=
  mkOptions (match opt_config later with Some c => Some c | None => opt_config earlier end)
            (match opt_port later with Some p => Some p | None => opt_port earlier end).

(** ** The [stop] command of [main] *)

(** What [stop] does to the outside, in order. *)
Inductive Event : Type :=
  | EvReadPidFile
  | EvKill (pid : jsnum)
  | EvCleanupPidFile
  | EvUnlinkReferenceCount
  | EvLog (text : string)
  | EvConsoleError (e : exn).

(** How the outside answers: the content of the PID file or the error of
    [readFileSync]; the error of [process.kill], of each of the two calls of
    [cleanupPidFile] and of [unlinkSync], if any; whether the reference
    count file exists. *)
Record StopOracle : Type := mkStopOracle {
  pid_file : outcome string;
  kill_error : jsnum -> option exn;
  cleanup_error_in_try : option exn;
  reference_count_exists : bool;
  unlink_error : option exn;
  cleanup_error_in_catch : option exn;
}.

Definition stopped_message : string :=
  "claude code router service has been successfully stopped.".
Definition failed_message : string :=
  "Failed to stop the service. It may have already been stopped.".

Section stop.
Context `{NodeRuntime}.

(** The [try] block: the events, and the error that ends it, if any. *)
Definition stop_try (o : StopOracle) : list Event * option exn :=
  match pid_file o with
  | Throw e => ([EvReadPidFile], Some e)
  | Return content =>
      let pid := parseInt content in
      match kill_error o pid with
      | Some e => ([EvReadPidFile; EvKill pid], Some e)
      | None =>
          match cleanup_error_in_try o with
          | Some e => ([EvReadPidFile; EvKill pid; EvCleanupPidFile], Some e)
          | None =>
              ([EvReadPidFile; EvKill pid; EvCleanupPidFile]
               ++ (if reference_count_exists o then [EvUnlinkReferenceCount] else [])
               ++ [EvLog stopped_message], None)
          end
      end
  end.

(** [case "stop"] of [main], with the [main().catch(console.error)] that
    receives what escapes it. *)
Definition main_stop (o : StopOracle) : list Event :=
  match stop_try o with
  | (events, None) => events
  | (events, Some _) =>
      events ++ [EvLog failed_message; EvCleanupPidFile]
      ++ match cleanup_error_in_catch o with
         | Some e => [EvConsoleError e]
         | None => []
         end
  end.

End stop.

Definition is_cleanup (ev : Event) : bool :=
  match ev with
  | EvCleanupPidFile => true
  | _ => false
  end.

Definition is_log (ev : Event) : bool :=
  match ev with
  | EvLog _ => true
  | _ => false
  end.

Definition is_kill (ev : Event) : bool :=
  match ev with
  | EvKill _ => true
  | _ => false
  end.

(** ** More about the running service *)

(** The service going on from a state, with the clock never past [deadline]. *)
Inductive runs_until (deadline : Z) : World -> World -> Prop :=
  | runs_here w : runs_until deadline w w
  | runs_tick w w' now :
      runs_until deadline w w' -> clock w' <= now -> now <= deadline ->
      runs_until deadline w (set_clock now w')
  | runs_lookup w w' providerName :
      runs_until deadline w w' ->
      runs_until deadline w (getProviderInstance providerName w').1
  | runs_output w w' l r :
      runs_until deadline w w' ->
      runs_until deadline w (set_output l r w').

(** A registry every record of which is also held under its own name. *)
Definition own_names (m : JsMap.t ModelProvider) : Prop :=
  forall k v, JsMap.get k m = Some v -> JsMap.get (name v) m = Some v.

(** A client built for a provider, with the proxy of the environment. *)
Definition built_for (env0 : gmap string string) (provider : ModelProvider)
    (h : OpenAI) : Prop :=
  baseURL h = openai_baseURL (api_base_url provider)
  /\ apiKey h = api_key provider
  /\ httpAgent h = getOpenAICommonOptions env0.

(** Every cached client was built for the provider registered under the
    key of its entry. *)
Definition cache_sound (env0 : gmap string string) (w : World) : Prop :=
  env w = env0
  /\ Forall (fun e => exists provider,
                JsMap.get (LRU.key e) (Providers w) = Some provider
                /\ name provider = LRU.key e
                /\ built_for env0 provider (LRU.value e))
            (LRU.entries (providerCache w)).

(** A loader environment whose [JSON.parse] undoes its [JSON.stringify] on
    the empty object and on a full one, for running the loader on examples. *)
Definition echo_config_env : ConfigEnv := {|
  getConfigFile := default "/home/u/.claude-code-router/config.json";
  DEFAULT_CONFIG := ∅;
  JSON_parse := fun s =>
    if String.eqb s "{}" then Some ∅
    else if String.eqb s "full"
    then Some {[ "OPENAI_API_KEY" := JStr "sk-1"; "OPENAI_BASE_URL" := JStr "http://x";
                 "OPENAI_MODEL" := JStr "gpt-4o" ]}
    else None;
  JSON_stringify := fun config => if bool_decide (config = ∅) then "{}" else "full";
  dirname := fun _ => "/home/u/.claude-code-router";
|}.

(** The configuration with another API key. *)
Definition with_api_key (k : option string) (config : Config) : Config :=
  mkConfig k (OPENAI_BASE_URL config) (OPENAI_MODEL config)
           (cfg_Providers config) (cfg_Router config).

(** ** The cache over a history of lookups *)

(** The keys in the order of their last use, most recent first, for a
    history of uses that has the most recent use first. *)
Fixpoint recency (hist : list string) : list string :=
  match hist with
  | [] => []
  | k :: hist' => k :: List.filter (fun k' => negb (String.eqb k' k)) (recency hist')
  end.

(** In the history [hist] the key [a] has a use after which [b] was not
    used: [b] is the less recently used of the two. *)
Definition used_after (hist : list string) (a b : string) : Prop :=
  exists later earlier, hist = later ++ a :: earlier /\ b ∉ later.

(** The states of the running service together with the cache keys its
    lookups have used so far, most recent first: every lookup of a
    registered name uses the key [provider.name], by [providerCache.get] and,
    on a miss, by [providerCache.set]. *)
Inductive served (config : Config) (env0 : gmap string string)
    : list string -> World -> Prop :=
  | served_startup now :
      served config env0 [] (startup config env0 now)
  | served_tick hist w now :
      served config env0 hist w -> clock w <= now ->
      served config env0 hist (set_clock now w)
  | served_lookup hist w providerName :
      served config env0 hist w ->
      served config env0
        (match JsMap.get providerName (Providers w) with
         | Some provider => name provider :: hist
         | None => hist
         end)
        (getProviderInstance providerName w).1
  | served_output hist w l r :
      served config env0 hist w ->
      served config env0 hist (set_output l r w).

(** A configuration with eleven providers and no default triple. *)
Definition eleven_names : list string :=
  ["p0"; "p1"; "p2"; "p3"; "p4"; "p5"; "p6"; "p7"; "p8"; "p9"; "p10"].

Definition eleven_config : Config :=
  mkConfig None None None
    (Some ((fun n => mkProvider n "http://a" "k" ["m"]) <$> eleven_names)) None.

(** The sentence of the specification about the client cache: of two
    lookups of one provider name, the second made no later than the time to
    live after the first, the second returns the handle the first returned. *)
Definition lookups_within_ttl_share_handle (config : Config)
    (env0 : gmap string string) : Prop :=
  forall w providerName h1 w1 w2 h2 w3,
    reachable config env0 w ->
    getProviderInstance providerName w = (w1, Return h1) ->
    runs_until (clock w1 + cache_ttl) w1 w2 ->
    getProviderInstance providerName w2 = (w3, Return h2) ->
    h2 = h1.

(** * Properties *)

(** ** The registry *)

Section jsmap_facts.
Context {V : Type}.
Implicit Types (m : JsMap.t V) (k : string) (v : V).

Lemma eqb_refl' k : String.eqb k k = true.
Proof. apply String.eqb_refl. Qed.

Lemma jsmap_get_set_eq m k v : JsMap.get k (JsMap.set k v m) = Some v.
Proof.
  induction m as [|[k' v'] m IH]; simpl.
  - by rewrite eqb_refl'.
  - destruct (String.eqb k' k) eqn:E; simpl; rewrite ?E ?eqb_refl' //.
Qed.

Lemma jsmap_get_set_ne m k k' v :
  k ≠ k' -> JsMap.get k' (JsMap.set k v m) = JsMap.get k' m.
Proof.
  intros Hne. induction m as [|[k0 v0] m IH]; simpl.
  - destruct (String.eqb k k') eqn:E; [|done].
    apply String.eqb_eq in E. done.
  - destruct (String.eqb k0 k) eqn:E; simpl.
    + apply String.eqb_eq in E. subst k0.
      destruct (String.eqb k k') eqn:E'; [|done].
      apply String.eqb_eq in E'. done.
    + by rewrite IH.
Qed.

Lemma jsmap_first_value_get m v :
  JsMap.first_value m = Some v -> exists k, head m = Some (k, v) /\ JsMap.get k m = Some v.
Proof.
  destruct m as [|[k v'] m]; simpl; [done|].
  intros [= ->]. exists k. by rewrite eqb_refl'.
Qed.

Lemma jsmap_set_head m k v k0 v0 :
  head m = Some (k0, v0) ->
  head (JsMap.set k v m) = Some (k0, if String.eqb k0 k then v else v0).
Proof.
  destruct m as [|[k1 v1] m]; simpl; [done|].
  intros [= -> ->]. destruct (String.eqb k0 k) eqn:E; simpl; [|done].
  apply String.eqb_eq in E. by subst.
Qed.

End jsmap_facts.

Lemma register_all_head ps : forall m k0 v0,
  head m = Some (k0, v0) -> name v0 = k0 ->
  exists q, head (foldl register m ps) = Some (k0, q) /\ name q = k0
            /\ (k0 ∉ map name ps -> q = v0).
Proof.
  induction ps as [|a ps IH]; intros m k0 v0 Hhead Hname; simpl.
  - by exists v0.
  - pose proof (jsmap_set_head m (name a) a k0 v0 Hhead) as Hhead'.
    destruct (String.eqb k0 (name a)) eqn:E.
    + apply String.eqb_eq in E.
      destruct (IH _ _ _ Hhead' (eq_sym E)) as (q & Hq & Hn & _).
      exists q. split_and!; [done..|].
      intros Hnot. exfalso. apply Hnot. rewrite E /=. constructor.
    + destruct (IH _ _ _ Hhead' Hname) as (q & Hq & Hn & Hfirst).
      exists q. split_and!; [done..|].
      intros Hnot. apply Hfirst. intros Hin. apply Hnot. simpl. by constructor.
Qed.

Lemma named_providers_first config p ps :
  cfg_Providers config = Some (p :: ps) ->
  exists q m, named_providers config = (name p, q) :: m /\ name q = name p
              /\ (name p ∉ map name ps -> q = p).
Proof.
  intros Hl. rewrite /named_providers Hl /=.
  destruct (register_all_head ps [(name p, p)] (name p) p) as (q & Hq & Hn & Hf);
    [done..|].
  destruct (foldl register _ ps) as [|[k v] m]; simplify_eq/=.
  by exists q, m.
Qed.

Lemma registerProviders_eq config :
  registerProviders config =
    if has_default_triple config
    then JsMap.set "default"
           (mkProvider "default" (str (OPENAI_BASE_URL config))
                       (str (OPENAI_API_KEY config)) [str (OPENAI_MODEL config)])
           (named_providers config)
    else match named_providers config with
         | [] => []
         | (_, q) :: _ => JsMap.set "default" q (named_providers config)
         end.
Proof.
  rewrite /registerProviders -/(named_providers config).
  destruct (has_default_triple config); [done|].
  by destruct (named_providers config) as [|[k q] m].
Qed.

Lemma alias_registry config p ps :
  has_default_triple config = false ->
  cfg_Providers config = Some (p :: ps) ->
  exists q,
    JsMap.get "default" (registerProviders config) = Some q
    /\ JsMap.first_value (named_providers config) = Some q
    /\ JsMap.get (name p) (registerProviders config) = Some q
    /\ name q = name p
    /\ (name p ∉ map name ps -> q = p).
Proof.
  intros Htriple Hl. rewrite registerProviders_eq Htriple.
  destruct (named_providers_first config p ps Hl) as (q & m & -> & Hn & Hf).
  exists q. split_and!; [apply jsmap_get_set_eq|done| |done..].
  destruct (decide (name p = "default")) as [->|Hne].
  - apply jsmap_get_set_eq.
  - rewrite jsmap_get_set_ne; [done|]. by rewrite /= eqb_refl'.
Qed.

(** C3: with the whole OPENAI triple in the configuration, ["default"] is the
    provider built from it; without it and with named providers, ["default"]
    is the record held under the first registered name (the first provider
    itself when no later one reuses its name); and the registry depends on
    nothing but the triple and the provider list, so equal configurations
    give the same default. *)
Theorem default_provider_registration (config : Config) :
  (if has_default_triple config
   then JsMap.get "default" (registerProviders config)
        = Some (mkProvider "default" (str (OPENAI_BASE_URL config))
                           (str (OPENAI_API_KEY config)) [str (OPENAI_MODEL config)])
   else match cfg_Providers config with
        | Some (p :: ps) =>
            exists q,
              JsMap.get "default" (registerProviders config) = Some q
              /\ JsMap.first_value (named_providers config) = Some q
              /\ JsMap.get (name p) (registerProviders config) = Some q
              /\ name q = name p
              /\ (name p ∉ map name ps -> q = p)
        | _ => JsMap.get "default" (registerProviders config) = None
        end)
  /\ (forall config',
        OPENAI_API_KEY config' = OPENAI_API_KEY config ->
        OPENAI_BASE_URL config' = OPENAI_BASE_URL config ->
        OPENAI_MODEL config' = OPENAI_MODEL config ->
        cfg_Providers config' = cfg_Providers config ->
        registerProviders config' = registerProviders config).
Proof.
  split.
  - destruct (has_default_triple config) eqn:Htriple.
    { rewrite registerProviders_eq Htriple. apply jsmap_get_set_eq. }
    destruct (cfg_Providers config) as [[|p ps]|] eqn:Hl.
    + by rewrite registerProviders_eq Htriple /named_providers Hl.
    + by apply alias_registry.
    + by rewrite registerProviders_eq Htriple /named_providers Hl.
  - intros [k' b' m' l' r'] Hk Hb Hm Hl. destruct config as [k b m l r].
    simpl in *. by subst.
Qed.

Lemma default_provider_registration_witness :
  JsMap.get "default"
    (registerProviders (mkConfig None None None
       (Some [mkProvider "p1" "http://a" "k1" ["m1"; "m2"];
              mkProvider "p2" "http://b" "k2" ["m3"]])
       (Some (mkRouter (Some "p1,m1") None None))))
  = Some (mkProvider "p1" "http://a" "k1" ["m1"; "m2"]).
Proof.
  rewrite (proj2 (default_provider_registration
    (mkConfig None None None
       (Some [mkProvider "p1" "http://a" "k1" ["m1"; "m2"];
              mkProvider "p2" "http://b" "k2" ["m3"]]) None))
    (mkConfig None None None
       (Some [mkProvider "p1" "http://a" "k1" ["m1"; "m2"];
              mkProvider "p2" "http://b" "k2" ["m3"]])
       (Some (mkRouter (Some "p1,m1") None None)))
    eq_refl eq_refl eq_refl eq_refl).
  reflexivity.
Defined.

(** ** [getProviderInstance], step by step *)

Lemma getProviderInstance_eq providerName w :
  getProviderInstance providerName w =
    match JsMap.get providerName (Providers w) with
    | None => (w, Throw (Error ("Provider " +:+ providerName +:+ " not found")))
    | Some provider =>
        match LRU.get (name provider) (clock w) (providerCache w) with
        | (Some h, c') => (set_cache c' w, Return h)
        | (None, c') =>
            (set_cache (LRU.set (name provider) (new_handle w provider) (clock w) c')
                       (set_next_oid (S (next_oid w)) w),
             Return (new_handle w provider))
        end
    end.
Proof.
  rewrite /getProviderInstance /bind /gets /=.
  destruct (JsMap.get providerName (Providers w)) as [provider|]; [|done].
  rewrite /providerCache_get /bind /gets /=.
  destruct (LRU.get _ _ _) as [[h|] c']; done.
Qed.

(** C6: a name that is not in the registry makes the lookup throw
    [Error("Provider <name> not found")] and leave the state as it was; a
    registered name yields a client object; there is no third outcome. *)
Theorem resolve_unregistered_throws (w : World) (providerName : string) :
  match JsMap.get providerName (Providers w) with
  | None =>
      getProviderInstance providerName w
      = (w, Throw (Error ("Provider " +:+ providerName +:+ " not found")))
  | Some provider =>
      exists h w', getProviderInstance providerName w = (w', Return h)
  end.
Proof.
  rewrite getProviderInstance_eq.
  destruct (JsMap.get providerName (Providers w)) as [provider|]; [|done].
  destruct (LRU.get _ _ _) as [[h|] c']; eauto.
Qed.

(** ** The cache: facts about the entry list *)

Section lru_facts.
Context {V : Type}.
Implicit Types (l : list (LRU.entry V)) (e : LRU.entry V) (k : string).

Lemma find_Some_inv k l e :
  LRU.find k l = Some e -> e ∈ l /\ LRU.key e = k.
Proof.
  induction l as [|a l IH]; simpl; [done|].
  rewrite /LRU.has_key. destruct (String.eqb (LRU.key a) k) eqn:E.
  - intros [= ->]. split; [constructor|]. by apply String.eqb_eq.
  - intros Hf. destruct (IH Hf). split; [by constructor|done].
Qed.

Lemma find_None_iff k l :
  LRU.find k l = None <-> k ∉ LRU.key <$> l.
Proof.
  induction l as [|a l IH]; simpl.
  - split; [|done]. intros _ Hin. inversion Hin.
  - rewrite /LRU.has_key not_elem_of_cons -IH.
    destruct (String.eqb (LRU.key a) k) eqn:E.
    + apply String.eqb_eq in E. split; [done|]. intros [Hne _]. done.
    + apply String.eqb_neq in E. split; [|tauto]. intros Hf. by split.
Qed.

Lemma remove_cons k a l :
  LRU.remove k (a :: l) =
    if String.eqb (LRU.key a) k then LRU.remove k l else a :: LRU.remove k l.
Proof. rewrite /LRU.remove /= /LRU.has_key. by destruct (String.eqb _ _). Qed.

Lemma find_cons k a l :
  LRU.find k (a :: l) = if String.eqb (LRU.key a) k then Some a else LRU.find k l.
Proof. done. Qed.

Lemma remove_sublist k l : LRU.remove k l `sublist_of` l.
Proof.
  induction l as [|a l IH]; [constructor|].
  rewrite remove_cons. destruct (String.eqb _ _); by constructor.
Qed.

Lemma find_remove k l : LRU.find k (LRU.remove k l) = None.
Proof.
  induction l as [|a l IH]; [done|].
  rewrite remove_cons. destruct (String.eqb _ _) eqn:E; [done|].
  by rewrite find_cons E.
Qed.

Lemma remove_id k l : LRU.find k l = None -> LRU.remove k l = l.
Proof.
  induction l as [|a l IH]; [done|].
  rewrite find_cons remove_cons. destruct (String.eqb _ _); [done|].
  intros Hf. by rewrite IH.
Qed.

Lemma removelast_sublist {A} (l : list A) : removelast l `sublist_of` l.
Proof.
  induction l as [|a [|b l] IH]; [constructor|repeat constructor|].
  change (removelast (a :: b :: l)) with (a :: removelast (b :: l)).
  by constructor.
Qed.

Lemma removelast_shorter {A} (l : list A) :
  l ≠ [] -> S (length (removelast l)) = length l.
Proof.
  induction l as [|a [|b l] IH]; intros Hne; [done..|].
  change (removelast (a :: b :: l)) with (a :: removelast (b :: l)).
  simpl length. f_equal. by apply IH.
Qed.

Lemma find_sublist_None k l l' :
  l' `sublist_of` l -> LRU.find k l = None -> LRU.find k l' = None.
Proof.
  rewrite !find_None_iff. intros Hsub Hnot Hin. apply Hnot.
  eapply elem_of_sublist; [done|]. by apply fmap_sublist.
Qed.

Lemma entry_moved_to_front k l e :
  NoDup (LRU.key <$> l) -> LRU.find k l = Some e -> e :: LRU.remove k l ≡ₚ l.
Proof.
  induction l as [|a l IH]; [done|].
  rewrite fmap_cons NoDup_cons find_cons remove_cons. intros [Hnot Hnd].
  destruct (String.eqb (LRU.key a) k) eqn:E.
  - intros [= ->]. apply String.eqb_eq in E. subst k.
    rewrite remove_id; [|done]. by apply find_None_iff.
  - intros Hf. rewrite Permutation_swap. by rewrite IH.
Qed.

Lemma elem_of_remove k l e :
  e ∈ LRU.remove k l -> e ∈ l /\ LRU.key e ≠ k.
Proof.
  induction l as [|a l IH]; [by inversion 1|].
  rewrite remove_cons. destruct (String.eqb (LRU.key a) k) eqn:E.
  - intros [? ?]%IH. split; [by constructor|done].
  - apply String.eqb_neq in E.
    intros [->|[? ?]%IH]%elem_of_cons; split; try done; by constructor.
Qed.

Lemma NoDup_fmap_elem_eq {A B} (f : A -> B) (l : list A) x y :
  NoDup (f <$> l) -> x ∈ l -> y ∈ l -> f x = f y -> x = y.
Proof.
  induction l as [|a l IH]; [by inversion 2|].
  rewrite fmap_cons NoDup_cons. intros [Hnot Hnd] Hx Hy Hf.
  apply elem_of_cons in Hx as [->|Hx]; apply elem_of_cons in Hy as [->|Hy];
    [done| | |by apply IH].
  - exfalso. apply Hnot. rewrite Hf. by apply list_elem_of_fmap_2.
  - exfalso. apply Hnot. rewrite -Hf. by apply list_elem_of_fmap_2.
Qed.

End lru_facts.

(** ** The two ways a lookup of a registered provider can go *)

Lemma getProviderInstance_cases w providerName provider :
  JsMap.get providerName (Providers w) = Some provider ->
  lookup_case w provider (getProviderInstance providerName w).
Proof.
  intros Hget. rewrite getProviderInstance_eq Hget /LRU.get.
  destruct (LRU.find _ _) as [e|] eqn:Hfind.
  - destruct (LRU.isStale _ e _) eqn:Hstale.
    + rewrite /LRU.set /= find_remove.
      assert (Hc := lookup_construct w provider
               (LRU.remove (name provider) (LRU.entries (providerCache w)))).
      destruct (_ <=? _)%nat; apply Hc; right; by exists e.
    + by apply lookup_hit.
  - rewrite /LRU.set Hfind.
    assert (Hc := lookup_construct w provider (LRU.entries (providerCache w))).
    destruct (_ <=? _)%nat; apply Hc; by left.
Qed.

Lemma cache_ok_startup config env0 now : cache_ok (startup config env0 now).
Proof.
  split; simpl; try done; try constructor.
  rewrite /LRU.size /cache_max /=. lia.
Qed.

Lemma cache_ok_tick w now : cache_ok w -> cache_ok (set_clock now w).
Proof. by intros []. Qed.

Lemma cache_ok_output w l r : cache_ok w -> cache_ok (set_output l r w).
Proof. by intros []. Qed.

Lemma cache_ok_lookup w providerName :
  cache_ok w -> cache_ok (getProviderInstance providerName w).1.
Proof.
  intros [Hk Hs Hm Ht Ho Ha].
  destruct (JsMap.get providerName (Providers w)) as [provider|] eqn:Hget; last first.
  { rewrite getProviderInstance_eq Hget. by split. }
  destruct (getProviderInstance_cases w providerName provider Hget)
    as [e Hfind Hstale|l' Hl'].
  - pose proof (entry_moved_to_front _ _ _ Hk Hfind) as Hperm.
    split; rewrite /with_entries /LRU.keys /LRU.size; cbn [fst providerCache
      set_cache LRU.entries LRU.max LRU.ttl next_oid]; rewrite ?Hperm //.
  - set (l := LRU.entries (providerCache w)) in *.
    assert (l' `sublist_of` l /\ LRU.find (name provider) l' = None)
      as [Hsub Hnone].
    { destruct Hl' as [[Hfind ->]|(e & Hfind & _ & ->)]; [done|].
      split; [apply remove_sublist|apply find_remove]. }
    set (l'' := if (_ <=? _)%nat then removelast l' else l').
    assert (l'' `sublist_of` l' /\ (length l'' < cache_max)%nat) as [Hsub'' Hlt].
    { subst l''. rewrite Hm. rewrite /LRU.size -/l in Hs.
      destruct (Nat.leb_spec cache_max (length l')) as [Hle|Hgt]; [|done].
      split; [apply removelast_sublist|].
      assert (l' ≠ []) as Hne by (intros ->; rewrite /cache_max /= in Hle; lia).
      pose proof (removelast_shorter l' Hne).
      pose proof (sublist_length _ _ Hsub). lia. }
    assert (l'' `sublist_of` l) as Hsub' by by etrans.
    split; rewrite /LRU.keys /LRU.size /=; try done.
    + apply NoDup_cons. split.
      * apply find_None_iff. by apply (find_sublist_None _ l' l'').
      * exact (sublist_NoDup _ _ Hk (fmap_sublist LRU.key _ _ Hsub')).
    + apply NoDup_cons. split.
      * intros (e & Heq & Hin)%list_elem_of_fmap.
        eapply elem_of_sublist in Hin; [|exact Hsub'].
        rewrite ->Forall_forall in Ha. specialize (Ha e Hin). simpl in Heq. lia.
      * exact (sublist_NoDup _ _ Ho (fmap_sublist _ _ _ Hsub')).
    + constructor; [simpl; lia|].
      apply Forall_forall. intros e Hin.
      eapply elem_of_sublist in Hin; [|exact Hsub'].
      rewrite ->Forall_forall in Ha. specialize (Ha e Hin). lia.
Qed.

Lemma reachable_cache_ok config env0 w : reachable config env0 w -> cache_ok w.
Proof.
  induction 1;
    auto using cache_ok_startup, cache_ok_tick, cache_ok_lookup, cache_ok_output.
Qed.

Lemma getProviderInstance_Providers w providerName :
  Providers (getProviderInstance providerName w).1 = Providers w.
Proof.
  rewrite getProviderInstance_eq.
  destruct (JsMap.get _ _); [|done]. by destruct (LRU.get _ _ _) as [[h|] c'].
Qed.

Lemma reachable_Providers config env0 w :
  reachable config env0 w -> Providers w = registerProviders config.
Proof.
  induction 1; [done|done| |done]. by rewrite getProviderInstance_Providers.
Qed.

Lemma set_next_oid_same w : set_next_oid (next_oid w) w = w.
Proof. by destruct w. Qed.

Lemma with_entries_same w : with_entries w (LRU.entries (providerCache w)) = w.
Proof. destruct w as [? ? ? [? ? ?] ? ? ?]. done. Qed.

Lemma isStale_true_inv (c : LRU.t OpenAI) e now :
  LRU.isStale c e now = true ->
  LRU.start e ≠ 0 /\ LRU.ttl c < now - LRU.start e.
Proof.
  rewrite /LRU.isStale !andb_true_iff !negb_true_iff.
  intros [[_ Hs%Z.eqb_neq] Hlt%Z.ltb_lt]. done.
Qed.

Lemma isStale_false_of_le (c : LRU.t OpenAI) e now :
  now <= LRU.start e + LRU.ttl c -> LRU.isStale c e now = false.
Proof.
  intros Hle. rewrite /LRU.isStale.
  assert ((LRU.ttl c <? now - LRU.start e) = false) as ->; [apply Z.ltb_ge; lia|].
  by rewrite andb_false_r.
Qed.

Lemma isStale_true_of_lt (c : LRU.t OpenAI) e now :
  LRU.ttl c = cache_ttl -> LRU.start e ≠ 0 ->
  LRU.start e + cache_ttl < now -> LRU.isStale c e now = true.
Proof.
  intros Ht Hs Hlt. rewrite /LRU.isStale Ht.
  rewrite !andb_true_iff !negb_true_iff. split_and!.
  - done.
  - by apply Z.eqb_neq.
  - apply Z.ltb_lt. lia.
Qed.

(** After a lookup the entry of the provider is the first of the cache, and
    it is either the entry that was there (a hit) or a new one, stored at the
    time of the call. *)
Lemma lookup_entry_in_front w providerName provider :
  JsMap.get providerName (Providers w) = Some provider ->
  exists e rest n,
    getProviderInstance providerName w
      = (with_entries (set_next_oid n w) (e :: rest), Return (LRU.value e))
    /\ LRU.key e = name provider
    /\ LRU.find (name provider) rest = None
    /\ rest `sublist_of` LRU.entries (providerCache w)
    /\ (n = next_oid w
        /\ LRU.find (name provider) (LRU.entries (providerCache w)) = Some e
        \/ n = S (next_oid w) /\ e = fresh_entry w provider).
Proof.
  intros Hget.
  destruct (getProviderInstance_cases w providerName provider Hget)
    as [e Hfind Hstale|l' Hl'].
  - exists e, (LRU.remove (name provider) (LRU.entries (providerCache w))), (next_oid w).
    rewrite set_next_oid_same. split_and!; [done| |apply find_remove|
      apply remove_sublist|by left].
    by destruct (find_Some_inv _ _ _ Hfind).
  - exists (fresh_entry w provider),
      (if (LRU.max (providerCache w) <=? length l')%nat then removelast l' else l'),
      (S (next_oid w)).
    split_and!; [done|done| | |by right].
    + assert (LRU.find (name provider) l' = None) as Hnone.
      { destruct Hl' as [[? ->]|(e & _ & _ & ->)]; [done|apply find_remove]. }
      destruct (_ <=? _)%nat; [|done].
      by apply (find_sublist_None _ l'); [apply removelast_sublist|].
    + assert (l' `sublist_of` LRU.entries (providerCache w)) as Hsub.
      { destruct Hl' as [[? ->]|(e & _ & _ & ->)]; [done|apply remove_sublist]. }
      destruct (_ <=? _)%nat; [|done].
      by etrans; [apply removelast_sublist|].
Qed.

(** ** The pipeline and the handler *)

Section gateway_facts.
Context `{Collaborators}.

(** C7: whatever the configuration, [run] installs four stages, in the
    order attach configuration, body rewrite, route, format; the route stage
    is [router] when all three rules are present and otherwise the stage
    that assigns the static default, which always passes the request on. *)
Theorem pipeline_shape (config : Config) :
  stages (install_middlewares config createServer)
  = [attachConfig config; rewriteBody;
     if router_rules_present config then router else useDefaultModel config;
     formatRequest]
  /\ length (stages (install_middlewares config createServer)) = 4%nat
  /\ (forall server,
        length (stages (install_middlewares config server))
        = (length (stages server) + 4)%nat)
  /\ (forall req w,
        useDefaultModel config req w
        = (w, Return (Some (mkRequest (req_config req) (Some "default")
                              (mkBody (OPENAI_MODEL config)
                                      (body_rest (req_body req))))))).
Proof.
  rewrite /install_middlewares.
  split_and!.
  - by destruct (router_rules_present config).
  - by destruct (router_rules_present config).
  - intros server.
    destruct (router_rules_present config);
      rewrite /useMiddleware /= !length_app /=; lia.
  - done.
Qed.

(** C2, as the code has it: without all three routing rules the route stage
    is the one that assigns provider ["default"] and the configured
    [OPENAI_MODEL], whatever the request holds; when the configuration has
    the whole OPENAI triple, that model is the only model of the provider
    registered as ["default"]. *)
Theorem degraded_mode_uses_OPENAI_MODEL (config : Config) (req : Request) :
  router_rules_present config = false ->
  stages (install_middlewares config createServer) !! 2%nat
  = Some (useDefaultModel config)
  /\ (forall w, exists req',
        useDefaultModel config req w = (w, Return (Some req'))
        /\ req_provider req' = Some "default"
        /\ body_model (req_body req') = OPENAI_MODEL config
        /\ body_rest (req_body req') = body_rest (req_body req)
        /\ req_config req' = req_config req)
  /\ (has_default_triple config = true ->
      exists p m,
        JsMap.get "default" (registerProviders config) = Some p
        /\ models p = [m]
        /\ OPENAI_MODEL config = Some m).
Proof.
  intros Hrules. split_and!.
  - by rewrite /install_middlewares Hrules.
  - intros w. by eexists.
  - intros Htriple. rewrite registerProviders_eq Htriple jsmap_get_set_eq.
    eexists _, _. split_and!; [done..|].
    move: Htriple. rewrite /has_default_triple.
    by destruct (OPENAI_MODEL config); rewrite ?andb_false_r.
Qed.

Lemma getProviderInstance_frame providerName w :
  res (getProviderInstance providerName w).1 = res w
  /\ console (getProviderInstance providerName w).1 = console w.
Proof.
  rewrite getProviderInstance_eq.
  destruct (JsMap.get _ _); [|done]. by destruct (LRU.get _ _ _) as [[h|] c'].
Qed.

(** C1, as the code has it: the handler never lets an exception escape;
    when the provider is not registered, or the backend call fails, it
    logs the error with [console.error] and writes nothing to the response. *)
Theorem handler_catches_and_logs (req : Request) (w : World) :
  (exists w', post_v1_messages req w = (w', Return tt))
  /\ (JsMap.get (or_default (req_provider req)) (Providers w) = None ->
      post_v1_messages req w
      = (add_console
           (console_error "Error in OpenAI API call:"
              (Error ("Provider " +:+ or_default (req_provider req) +:+ " not found")))
           w,
         Return tt))
  /\ (forall h w1 e,
        getProviderInstance (or_default (req_provider req)) w = (w1, Return h) ->
        chat_completions_create h (req_body req) = Throw e ->
        post_v1_messages req w
        = (add_console (console_error "Error in OpenAI API call:" e) w1, Return tt)
        /\ res w1 = res w).
Proof.
  split_and!.
  - rewrite /post_v1_messages /try_catch /bind /lift_outcome /stream_to_res.
    destruct (getProviderInstance _ w) as [w1 [h|e]]; [|by eexists].
    destruct (chat_completions_create h (req_body req)) as [completion|e];
      [|by eexists].
    destruct (streamOpenAIResponse _ _ _) as [chunks [e|]]; by eexists.
  - intros Hget.
    by rewrite /post_v1_messages /try_catch /bind getProviderInstance_eq Hget.
  - intros h w1 e Hcall Hcreate.
    rewrite /post_v1_messages /try_catch /bind /lift_outcome Hcall Hcreate.
    split; [done|].
    destruct (getProviderInstance_frame (or_default (req_provider req)) w) as [Hres _].
    by rewrite Hcall in Hres.
Qed.

Lemma write_chunks chunks : forall w,
  foldl (fun w chunk => add_res chunk w) w chunks
  = set_output (console w) (res w ++ chunks) w.
Proof.
  induction chunks as [|c chunks IH]; intros w; simpl.
  - rewrite app_nil_r. by destruct w.
  - by rewrite IH /= -app_assoc.
Qed.

(** Handling a request keeps the service within its reachable states. *)
Lemma reachable_handler config env0 req w :
  reachable config env0 w -> reachable config env0 (post_v1_messages req w).1.
Proof.
  intros Hreach.
  pose proof (reach_lookup _ _ w (or_default (req_provider req)) Hreach) as Hlook.
  rewrite /post_v1_messages /try_catch /bind /lift_outcome /stream_to_res.
  destruct (getProviderInstance _ w) as [w1 [h|e]]; simpl in Hlook;
    [|by apply (reach_output _ _ w1)].
  destruct (chat_completions_create h (req_body req)) as [completion|e];
    [|by apply (reach_output _ _ w1)].
  destruct (streamOpenAIResponse _ _ _) as [chunks [e|]];
    rewrite /modify /= write_chunks; by apply (reach_output _ _ w1).
Qed.

End gateway_facts.

Lemma degraded_mode_uses_OPENAI_MODEL_witness :
  stages (install_middlewares (H := idle_collaborators) aliased_config createServer)
    !! 2%nat
  = Some (useDefaultModel aliased_config).
Proof.
  apply (degraded_mode_uses_OPENAI_MODEL (H := idle_collaborators)
           aliased_config (some_request None) eq_refl).
Defined.

(** C2 as the specification states it fails: with the triple left empty and
    one named provider, ["default"] is that provider, whose only model is
    ["m1"], and the stage sets the model to the empty [OPENAI_MODEL]. *)
Lemma degraded_mode_model_counterexample :
  ~ degraded_mode_uses_default_providers_model (H := idle_collaborators)
      aliased_config (some_request None).
Proof.
  intros Hclaim.
  destruct (Hclaim eq_refl) as (route & req' & p & m & Hroute & Hrun & _ & Hp & Hm & Hmodel).
  injection Hroute as <-. injection Hp as <-.
  specialize (Hrun (startup aliased_config ∅ 0)).
  injection Hrun as <-. simpl in *. congruence.
Qed.

Lemma handler_catches_and_logs_witness :
  post_v1_messages (H := idle_collaborators) (some_request (Some "nope"))
    (startup demo_config ∅ 0)
  = (add_console
       (console_error "Error in OpenAI API call:" (Error "Provider nope not found"))
       (startup demo_config ∅ 0),
     Return tt).
Proof.
  apply (handler_catches_and_logs (H := idle_collaborators)
           (some_request (Some "nope")) (startup demo_config ∅ 0)).
  reflexivity.
Defined.

(** C1 as the specification states it fails: for a provider name that is
    not registered the handler returns with the response untouched, and so
    it does when the backend call fails. *)
Lemma failure_reply_counterexample :
  ~ failure_gets_error_reply (H := idle_collaborators)
      (startup demo_config ∅ 0) (some_request (Some "nope"))
  /\ ~ failure_gets_error_reply (H := idle_collaborators)
      (startup demo_config ∅ 0) (some_request (Some "p1")).
Proof.
  split.
  - intros Hclaim. destruct Hclaim as (w' & Hrun & Hres); [by left|].
    injection Hrun as <-. by apply Hres.
  - intros Hclaim. destruct Hclaim as (w' & Hrun & Hres).
    { right. by eexists _, _, _. }
    injection Hrun as <-. by apply Hres.
Qed.

(** ** The configuration loader *)

Section config_facts.
Context `{ConfigEnv}.

Lemma missing_both_insert env config field v f :
  f ≠ field ->
  missing_both env (<[field := v]> config) f = missing_both env config f.
Proof. intros Hne. by rewrite /missing_both lookup_insert_ne. Qed.

Lemma existsb_missing_insert env config field v fields :
  field ∉ fields ->
  existsb (missing_both env (<[field := v]> config)) fields
  = existsb (missing_both env config) fields.
Proof.
  induction fields as [|f fields IH]; [done|].
  rewrite not_elem_of_cons. intros [Hne Hnot]. simpl.
  by rewrite missing_both_insert ?IH.
Qed.

Lemma filter_missing_insert env config field v fields :
  field ∉ fields ->
  List.filter (missing_both env (<[field := v]> config)) fields
  = List.filter (missing_both env config) fields.
Proof.
  induction fields as [|f fields IH]; [done|].
  rewrite not_elem_of_cons. intros [Hne Hnot]. simpl.
  by rewrite missing_both_insert ?IH.
Qed.

(** The loop: it ends when there is an answer for every prompt; it leaves
    the file system and the environment alone; it raises [needsUpdate]
    exactly when it prompts, and it prompts for the fields that neither the
    environment nor the configuration provides. *)
Lemma fill_required_spec fields : NoDup fields ->
  forall config needsUpdate io,
    (length fields <= length (stdin io))%nat ->
    exists config' io',
      fill_required fields config needsUpdate io
      = Some (config',
              needsUpdate || existsb (missing_both (process_env io) config) fields,
              io')
      /\ fs io' = fs io
      /\ process_env io' = process_env io
      /\ (existsb (missing_both (process_env io) config) fields = false -> io' = io)
      /\ (forall f v, f ∈ fields -> process_env io !! f = Some v ->
                      truthy_str v = true -> config' !! f = Some (JStr v))
      /\ (forall f, f ∉ fields -> config' !! f = config !! f)
      /\ stdout io'
         = stdout io
           ++ (prompt <$> List.filter (missing_both (process_env io) config) fields).
Proof.
  induction fields as [|field fields IH]; intros Hnd config needsUpdate io Hlen.
  { exists config, io. rewrite orb_false_r app_nil_r. split_and!; try done.
    intros f v Hin. inversion Hin. }
  apply NoDup_cons in Hnd as [Hnot Hnd].
  cbn [fill_required existsb List.filter].
  destruct (truthy truthy_str (process_env io !! field)) eqn:Henv.
  - (* the environment provides the field *)
    assert (missing_both (process_env io) config field = false) as ->
      by by rewrite /missing_both Henv.
    edestruct (IH Hnd (<[field := JStr (str (process_env io !! field))]> config)
                 needsUpdate io)
      as (config' & io' & -> & Hfs & Hpe & Hio & Hprio & Hother & Hout);
      [simpl in Hlen; lia|].
    rewrite existsb_missing_insert // in Hio |- *.
    rewrite filter_missing_insert // in Hout.
    exists config', io'. split_and!; try done.
    + intros f v [->|Hin]%elem_of_cons Hf Hv; [|by eapply Hprio].
      rewrite Hother // lookup_insert_eq. by rewrite Hf.
    + intros f [Hne Hnin]%not_elem_of_cons. by rewrite Hother // lookup_insert_ne.
  - destruct (truthy truthy_json (config !! field)) eqn:Hcfg;
      cbn [negb andb].
    + (* the configuration provides it *)
      assert (missing_both (process_env io) config field = false) as ->
        by by rewrite /missing_both Henv Hcfg.
      edestruct (IH Hnd config needsUpdate io)
        as (config' & io' & -> & Hfs & Hpe & Hio & Hprio & Hother & Hout);
        [simpl in Hlen; lia|].
      exists config', io'. split_and!; try done.
      * intros f v [->|Hin]%elem_of_cons Hf Hv; [|by eapply Hprio].
        by rewrite Hf /= Hv in Henv.
      * intros f [Hne Hnin]%not_elem_of_cons. by apply Hother.
    + (* nobody does: prompt *)
      assert (missing_both (process_env io) config field = true) as ->
        by by rewrite /missing_both Henv Hcfg.
      rewrite /question. destruct (stdin io) as [|answer rest] eqn:Hin;
        [simpl in Hlen; lia|].
      edestruct (IH Hnd (<[field := JStr answer]> config) true
                   (mkIO (fs io) (process_env io) rest (stdout io ++ [prompt field])))
        as (config' & io' & Heq & Hfs & Hpe & Hio & Hprio & Hother & Hout);
        [simpl in *; lia|].
      rewrite Heq orb_true_r.
      cbn [process_env stdout] in Hout.
      rewrite filter_missing_insert // -app_assoc in Hout.
      exists config', io'. split_and!; try done.
      * intros f v [->|Hf]%elem_of_cons Hv Ht; [|by eapply Hprio].
        by rewrite Hv /= Ht in Henv.
      * intros f [Hne Hnin]%not_elem_of_cons. by rewrite Hother // lookup_insert_ne.
Qed.

Lemma missing_merged_existing env (existing defaults : gmap string json) f :
  missing_both env (existing ∪ defaults) f = true ->
  missing_both env existing f = true.
Proof.
  rewrite /missing_both lookup_union.
  destruct (truthy truthy_str (env !! f)); [done|]. simpl.
  destruct (existing !! f) as [v|]; [|done].
  by destruct (defaults !! f).
Qed.

Lemma missing_existing_merged env (existing defaults : gmap string json) f :
  truthy truthy_json (defaults !! f) = false ->
  missing_both env existing f = true ->
  missing_both env (existing ∪ defaults) f = true.
Proof.
  rewrite /missing_both lookup_union.
  destruct (truthy truthy_str (env !! f)); [done|]. simpl.
  destruct (existing !! f) as [v|], (defaults !! f) as [d|]; simpl; try done.
  by intros ->.
Qed.

Lemma prompt_shown env config fields f (out : list string) :
  f ∈ fields -> missing_both env config f = true ->
  prompt f ∈ out ++ (prompt <$> List.filter (missing_both env config) fields).
Proof.
  intros Hin Hmiss. apply elem_of_app. right.
  apply list_elem_of_fmap_2, list_elem_of_In, filter_In.
  split; [by apply list_elem_of_In|done].
Qed.

Lemma requiredFields_NoDup : NoDup requiredFields.
Proof. apply (bool_decide_unpack _). by vm_compute. Qed.

(** C10: [readConfigFile] returns when there are answers for its prompts.
    For each required field a non-empty environment variable is the value in
    the result, whatever the file holds.  When every required field is
    provided by the environment or by the file, nothing is written and
    nothing is asked: the file system is as before.  When the file system
    has changed, some required field was missing from both and was prompted
    for.  With defaults that provide none of the required fields, a field
    missing from both is prompted for and the file then holds the result. *)
Theorem readConfigFile_env_first_rewrite_on_prompt customConfigPath io :
  (3 <= length (stdin io))%nat ->
  exists config io',
    readConfigFile customConfigPath io = Some (config, io')
    /\ (forall field v,
          field ∈ requiredFields -> process_env io !! field = Some v ->
          truthy_str v = true -> config !! field = Some (JStr v))
    /\ ((forall field, field ∈ requiredFields ->
           missing_both (process_env io)
             (read_existing (getConfigFile customConfigPath) (fs io)) field = false) ->
        io' = io)
    /\ (fs io' ≠ fs io ->
        exists field,
          field ∈ requiredFields
          /\ missing_both (process_env io)
               (read_existing (getConfigFile customConfigPath) (fs io)) field = true
          /\ prompt field ∈ stdout io')
    /\ ((forall field, field ∈ requiredFields ->
           truthy truthy_json (DEFAULT_CONFIG !! field) = false) ->
        forall field,
          field ∈ requiredFields ->
          missing_both (process_env io)
            (read_existing (getConfigFile customConfigPath) (fs io)) field = true ->
          files (fs io') !! getConfigFile customConfigPath
            = Some (JSON_stringify config)
          /\ prompt field ∈ stdout io').
Proof.
  intros Hlen. rewrite /readConfigFile.
  set (existing := read_existing (getConfigFile customConfigPath) (fs io)).
  destruct (fill_required_spec requiredFields requiredFields_NoDup
              (existing ∪ DEFAULT_CONFIG) false io Hlen)
    as (config & io' & -> & Hfs & Hpe & Hio & Hprio & _ & Hout).
  rewrite orb_false_l.
  destruct (existsb _ requiredFields) eqn:Hex.
  - (* some field was prompted for: the file is written *)
    apply existsb_exists in Hex as (f0 & Hf0%list_elem_of_In & Hmiss0).
    eexists _, _. split_and!; [done|done|..].
    + intros Hall. apply missing_merged_existing in Hmiss0.
      by rewrite Hall in Hmiss0.
    + intros _. exists f0. split_and!; [done|by eapply missing_merged_existing|].
      rewrite /writeConfigFile /= Hout. by apply prompt_shown.
    + intros Hdef field Hfield Hmiss. split.
      * by rewrite /writeConfigFile /= lookup_insert_eq.
      * rewrite /writeConfigFile /= Hout. apply prompt_shown; [done|].
        by apply missing_existing_merged; [apply Hdef|].
  - (* nothing was asked *)
    rewrite (Hio eq_refl).
    eexists _, _. split_and!; [done|done|done|done|].
    intros Hdef field Hfield Hmiss. exfalso.
    assert (existsb (missing_both (process_env io) (existing ∪ DEFAULT_CONFIG))
                    requiredFields = true) as Hex'; [|by rewrite Hex in Hex'].
    apply existsb_exists. exists field. split; [by apply list_elem_of_In|].
    by apply missing_existing_merged; [apply Hdef|].
Qed.

End config_facts.

Lemma readConfigFile_env_first_rewrite_on_prompt_witness :
  exists config io',
    readConfigFile (H := demo_config_env) None
      (mkIO (mkFS ∅ ∅) {[ "OPENAI_MODEL" := "gpt-4o" ]} ["sk-1"; "http://x"; "m"] [])
    = Some (config, io')
    /\ config !! "OPENAI_MODEL" = Some (JStr "gpt-4o").
Proof.
  destruct (readConfigFile_env_first_rewrite_on_prompt (H := demo_config_env) None
              (mkIO (mkFS ∅ ∅) {[ "OPENAI_MODEL" := "gpt-4o" ]}
                    ["sk-1"; "http://x"; "m"] []))
    as (config & io' & Hrun & Hprio & _); [simpl; lia|].
  exists config, io'. split; [done|].
  apply Hprio; [|done..]. rewrite /requiredFields. do 2 right. by left.
Defined.

(** ** The streaming response adapter *)

Module StreamAdapterFacts.
Import StreamAdapter.

Lemma forward_chunks cs : forall ev,
  foldl step (mkAdapter false ev) (Chunk <$> cs)
  = mkAdapter false (ev ++ (delta <$> cs)).
Proof.
  induction cs as [|c cs IH]; intros ev; simpl.
  - by rewrite app_nil_r.
  - rewrite /step /=. by rewrite IH -app_assoc.
Qed.

Lemma closed_ignores l : forall ev,
  foldl step (mkAdapter true ev) l = mkAdapter true ev.
Proof. induction l as [|s l IH]; intros ev; [done|]. by rewrite /= IH. Qed.

(** C5: for the chunks [c1 .. cn] followed by the stop signal the caller
    receives exactly [start, delta c1, .., delta cn, terminal]; when only
    the first [k] chunks have arrived the caller has received [start] and
    their [k] deltas and nothing else, so no event precedes its chunk; the
    terminal event occurs once, last, and nothing follows it whatever
    arrives after the stop signal. *)
Theorem adapter_event_sequence (cs : list string) :
  adapt ((Chunk <$> cs) ++ [Stop]) = start :: (delta <$> cs) ++ [terminal]
  /\ (forall k, adapt (Chunk <$> take k cs) = start :: (delta <$> take k cs))
  /\ length (List.filter is_terminal (adapt ((Chunk <$> cs) ++ [Stop]))) = 1%nat
  /\ last (adapt ((Chunk <$> cs) ++ [Stop])) = Some terminal
  /\ (forall more,
        adapt ((Chunk <$> cs) ++ Stop :: more) = adapt ((Chunk <$> cs) ++ [Stop])).
Proof.
  assert (forall more, adapt ((Chunk <$> cs) ++ Stop :: more)
                       = start :: (delta <$> cs) ++ [terminal]) as Hrun.
  { intros more. rewrite /adapt /open foldl_app forward_chunks /=.
    by rewrite {1}/step /= closed_ignores. }
  split_and!.
  - apply Hrun.
  - intros k. by rewrite /adapt /open forward_chunks.
  - rewrite Hrun /= List.filter_app /= length_app /=.
    assert (List.filter is_terminal (delta <$> cs) = []) as ->; [|done].
    clear Hrun. induction cs as [|c cs IH]; [done|]. by rewrite fmap_cons /= IH.
  - by rewrite Hrun app_comm_cons last_snoc.
  - intros more. by rewrite !Hrun.
Qed.

End StreamAdapterFacts.

(** * Further properties of the code *)

(** ** Prompts *)

Lemma toLowerCase_is_n (s : string) :
  String.eqb (toLowerCase s) "n" = bool_decide (s = "n" \/ s = "N").
Proof.
  destruct s as [|c [|c' s']].
  - done.
  - destruct c as [[] [] [] [] [] [] [] []]; by vm_compute.
  - rewrite bool_decide_false; [by intros [?|?]|].
    simpl. by destruct (Ascii.eqb _ _).
Qed.

(** X4: [confirm] takes the next line of input as the answer and declines
    exactly when the answer is "n" or "N"; every other answer, the empty
    one included, confirms. *)
Theorem confirm_declines_only_on_n (query answer : string) (rest : list string) (io : IO) :
  stdin io = answer :: rest ->
  confirm query io
  = Some (negb (bool_decide (answer = "n" \/ answer = "N")),
          mkIO (fs io) (process_env io) rest (stdout io ++ [query])).
Proof.
  intros Hin. by rewrite /confirm /question Hin toLowerCase_is_n.
Qed.

Lemma confirm_declines_only_on_n_witness :
  confirm "Overwrite? (Y/n) " (mkIO (mkFS ∅ ∅) ∅ [""; "n"] [])
  = Some (true, mkIO (mkFS ∅ ∅) ∅ ["n"] ["Overwrite? (Y/n) "]).
Proof.
  apply (confirm_declines_only_on_n "Overwrite? (Y/n) " "" ["n"]
           (mkIO (mkFS ∅ ∅) ∅ [""; "n"] [])).
  reflexivity.
Defined.

(** ** The configuration file *)

Section config_more.
Context `{ConfigEnv}.

(** What a run of the loop that ends has done. *)
Lemma fill_required_inv fields : NoDup fields ->
  forall config needsUpdate io config' needsUpdate' io',
    fill_required fields config needsUpdate io = Some (config', needsUpdate', io') ->
    fs io' = fs io
    /\ process_env io' = process_env io
    /\ needsUpdate'
       = needsUpdate || existsb (missing_both (process_env io) config) fields
    /\ (existsb (missing_both (process_env io) config) fields = false -> io' = io)
    /\ (forall f, f ∈ fields -> truthy truthy_str (process_env io !! f) = true ->
                  config' !! f = Some (JStr (str (process_env io !! f))))
    /\ (forall f, f ∈ fields -> truthy truthy_str (process_env io !! f) = false ->
                  truthy truthy_json (config !! f) = true ->
                  config' !! f = config !! f)
    /\ (forall f, f ∈ fields -> is_Some (config' !! f))
    /\ (forall f, f ∉ fields -> config' !! f = config !! f).
Proof.
  induction fields as [|field fields IH];
    intros Hnd config needsUpdate io config' needsUpdate' io' Hrun.
  { injection Hrun as <- <- <-. rewrite orb_false_r.
    split_and!; try done; intros f Hin; inversion Hin. }
  apply NoDup_cons in Hnd as [Hnot Hnd].
  cbn [fill_required existsb] in Hrun |- *.
  destruct (truthy truthy_str (process_env io !! field)) eqn:Henv.
  - assert (missing_both (process_env io) config field = false) as ->
      by by rewrite /missing_both Henv.
    destruct (IH Hnd _ _ _ _ _ _ Hrun)
      as (Hfs & Hpe & Hnu & Hio & Hprio & Hkeep & Hdef & Hother).
    rewrite existsb_missing_insert // in Hnu Hio.
    split_and!; try done.
    + intros f [->|Hin]%elem_of_cons Hf; [|by apply Hprio].
      by rewrite Hother // lookup_insert_eq.
    + intros f [->|Hin]%elem_of_cons Hf Hc; [by rewrite Henv in Hf|].
      rewrite Hkeep //; rewrite lookup_insert_ne //; by intros ->.
    + intros f [->|Hin]%elem_of_cons; [|by apply Hdef].
      by rewrite Hother // lookup_insert_eq.
    + intros f [Hne Hnin]%not_elem_of_cons. by rewrite Hother // lookup_insert_ne.
  - destruct (truthy truthy_json (config !! field)) eqn:Hcfg; cbn [negb] in Hrun.
    + assert (missing_both (process_env io) config field = false) as ->
        by by rewrite /missing_both Henv Hcfg.
      destruct (IH Hnd _ _ _ _ _ _ Hrun)
        as (Hfs & Hpe & Hnu & Hio & Hprio & Hkeep & Hdef & Hother).
      split_and!; try done.
      * intros f [->|Hin]%elem_of_cons Hf; [by rewrite Henv in Hf|by apply Hprio].
      * intros f [->|Hin]%elem_of_cons Hf Hc; [by apply Hother|by apply Hkeep].
      * intros f [->|Hin]%elem_of_cons; [|by apply Hdef].
        rewrite Hother //. by destruct (config !! field).
      * intros f [Hne Hnin]%not_elem_of_cons. by apply Hother.
    + assert (missing_both (process_env io) config field = true) as ->
        by by rewrite /missing_both Henv Hcfg.
      rewrite /question in Hrun.
      destruct (stdin io) as [|answer rest] eqn:Hin; [done|].
      destruct (IH Hnd _ _ _ _ _ _ Hrun)
        as (Hfs & Hpe & Hnu & Hio & Hprio & Hkeep & Hdef & Hother).
      cbn [process_env fs] in *.
      rewrite orb_true_r. split_and!; try done.
      * intros f [->|Hf]%elem_of_cons Ht; [by rewrite Henv in Ht|by apply Hprio].
      * intros f [->|Hf]%elem_of_cons Ht Hc; [by rewrite Hcfg in Hc|].
        rewrite Hkeep //; rewrite lookup_insert_ne //; by intros ->.
      * intros f [->|Hf]%elem_of_cons; [|by apply Hdef].
        by rewrite Hother // lookup_insert_eq.
      * intros f [Hne Hnin]%not_elem_of_cons. by rewrite Hother // lookup_insert_ne.
Qed.

(** With nothing missing the loop asks nothing, whatever the input holds. *)
Lemma fill_required_no_prompt fields : NoDup fields ->
  forall config needsUpdate io,
    existsb (missing_both (process_env io) config) fields = false ->
    exists config', fill_required fields config needsUpdate io
                    = Some (config', needsUpdate, io).
Proof.
  induction fields as [|field fields IH]; intros Hnd config needsUpdate io Hex.
  { by exists config. }
  apply NoDup_cons in Hnd as [Hnot Hnd].
  cbn [fill_required existsb] in Hex |- *.
  apply orb_false_iff in Hex as [Hfield Hrest].
  destruct (truthy truthy_str (process_env io !! field)) eqn:Henv.
  - apply IH; [done|]. by rewrite existsb_missing_insert.
  - rewrite /missing_both Henv /= in Hfield.
    apply negb_false_iff in Hfield. rewrite Hfield /=. by apply IH.
Qed.

Lemma read_after_write config customConfigPath io :
  JSON_parse (JSON_stringify config) = Some config ->
  read_existing (getConfigFile customConfigPath)
    (fs (writeConfigFile config customConfigPath io)) = config.
Proof.
  intros Hrt. by rewrite /read_existing /writeConfigFile /= lookup_insert_eq Hrt.
Qed.

(** X6: every entry of the existing file other than the three required
    fields is in the result unchanged; where the file has none the default
    stands; a required field the file provides and the environment does not
    keeps the file's value; every required field is defined in the result;
    and when the file has been written it holds the result. *)
Theorem readConfigFile_keeps_file_entries customConfigPath io config io' :
  readConfigFile customConfigPath io = Some (config, io') ->
  (forall k v, k ∉ requiredFields ->
     read_existing (getConfigFile customConfigPath) (fs io) !! k = Some v ->
     config !! k = Some v)
  /\ (forall k, k ∉ requiredFields ->
        read_existing (getConfigFile customConfigPath) (fs io) !! k = None ->
        config !! k = DEFAULT_CONFIG !! k)
  /\ (forall f, f ∈ requiredFields ->
        truthy truthy_str (process_env io !! f) = false ->
        truthy truthy_json
          (read_existing (getConfigFile customConfigPath) (fs io) !! f) = true ->
        config !! f = read_existing (getConfigFile customConfigPath) (fs io) !! f)
  /\ (forall f, f ∈ requiredFields -> is_Some (config !! f))
  /\ (fs io' ≠ fs io ->
      files (fs io') !! getConfigFile customConfigPath = Some (JSON_stringify config)).
Proof.
  rewrite /readConfigFile.
  set (existing := read_existing (getConfigFile customConfigPath) (fs io)).
  destruct (fill_required _ _ _ _) as [[[c nu] io1]|] eqn:Hloop; [|done].
  destruct (fill_required_inv _ requiredFields_NoDup _ _ _ _ _ _ Hloop)
    as (Hfs & Hpe & Hnu & Hio & Hprio & Hkeep & Hdef & Hother).
  intros Hrun.
  assert (config = c) as -> by (by destruct nu; injection Hrun).
  split_and!.
  - intros k v Hk Hv. rewrite Hother //. by apply lookup_union_Some_l.
  - intros k Hk Hnone. by rewrite Hother // lookup_union_r.
  - intros f Hf Henv Hfile.
    destruct (existing !! f) as [v|] eqn:Hv; [|done].
    rewrite Hkeep //; by rewrite (lookup_union_Some_l _ _ _ v).
  - done.
  - destruct nu; injection Hrun as <-; [|by rewrite Hfs].
    intros _. by rewrite /writeConfigFile /= lookup_insert_eq.
Qed.

(** X7: once [readConfigFile] has returned a configuration whose three
    required fields are all non-empty, and [JSON.parse] undoes
    [JSON.stringify] on it, running it again in the state it left returns
    the same configuration without asking anything and without changing
    that state. *)
Theorem readConfigFile_second_run customConfigPath io config io' :
  readConfigFile customConfigPath io = Some (config, io') ->
  (forall f, f ∈ requiredFields -> truthy truthy_json (config !! f) = true) ->
  JSON_parse (JSON_stringify config) = Some config ->
  readConfigFile customConfigPath io' = Some (config, io').
Proof.
  intros Hrun Hfull Hrt. pose proof Hrun as Hrun0.
  rewrite /readConfigFile in Hrun.
  set (existing := read_existing (getConfigFile customConfigPath) (fs io)) in Hrun.
  destruct (fill_required _ _ _ _) as [[[c nu] io1]|] eqn:Hloop; [|done].
  destruct (fill_required_inv _ requiredFields_NoDup _ _ _ _ _ _ Hloop)
    as (Hfs & Hpe & Hnu & Hio & Hprio & Hkeep & Hdef & Hother).
  destruct nu; injection Hrun as <- <-; last first.
  { (* nothing was asked: the state is the one the first run started from *)
    rewrite -(Hio (eq_sym Hnu)) in Hrun0 |- *. exact Hrun0. }
  rewrite /readConfigFile read_after_write //.
  assert (existsb (missing_both (process_env (writeConfigFile c customConfigPath io1))
                     (c ∪ DEFAULT_CONFIG)) requiredFields = false) as Hnone.
  { apply not_true_is_false. intros (f & Hf%list_elem_of_In & Hm)%existsb_exists.
    specialize (Hfull f Hf). destruct (c !! f) as [v|] eqn:Hv; [|done].
    rewrite /missing_both (lookup_union_Some_l _ _ _ v) // in Hm.
    simpl in Hm, Hfull. rewrite Hfull in Hm. by rewrite andb_false_r in Hm. }
  destruct (fill_required_no_prompt _ requiredFields_NoDup (c ∪ DEFAULT_CONFIG)
              false _ Hnone) as [c2 Hloop2].
  rewrite Hloop2. do 2 f_equal.
  destruct (fill_required_inv _ requiredFields_NoDup _ _ _ _ _ _ Hloop2)
    as (_ & _ & _ & _ & Hprio2 & Hkeep2 & _ & Hother2).
  cbn [writeConfigFile process_env] in Hprio2, Hkeep2. rewrite Hpe in Hprio2 Hkeep2.
  apply map_eq. intros k.
  destruct (decide (k ∈ requiredFields)) as [Hk|Hk].
  - specialize (Hfull k Hk). destruct (c !! k) as [v|] eqn:Hv; [|done].
    destruct (truthy truthy_str (process_env io !! k)) eqn:Hek.
    + by rewrite Hprio2 // -Hv Hprio.
    + rewrite Hkeep2 //; by rewrite (lookup_union_Some_l _ _ _ v).
  - rewrite Hother2 //. destruct (c !! k) as [v|] eqn:Hv.
    + by apply lookup_union_Some_l.
    + rewrite lookup_union_r //. rewrite Hother // in Hv.
      by apply lookup_union_None in Hv as [_ ?].
Qed.

End config_more.

Lemma readConfigFile_keeps_file_entries_witness :
  exists config io',
    @readConfigFile echo_config_env None
      (mkIO (mkFS ∅ ∅) {[ "OPENAI_MODEL" := "gpt-4o" ]} ["sk-1"; "http://x"] [])
    = Some (config, io')
    /\ is_Some (config !! "OPENAI_API_KEY").
Proof.
  destruct (@readConfigFile echo_config_env None
              (mkIO (mkFS ∅ ∅) {[ "OPENAI_MODEL" := "gpt-4o" ]} ["sk-1"; "http://x"] []))
    as [[config io']|] eqn:Hrun; [|vm_compute in Hrun; discriminate Hrun].
  exists config, io'. split; [reflexivity|].
  apply (@readConfigFile_keeps_file_entries echo_config_env _ _ _ _ Hrun).
  rewrite /requiredFields. by left.
Defined.

Lemma readConfigFile_second_run_witness :
  @readConfigFile echo_config_env None
    (mkIO (mkFS ∅ {[ "/x" := "1" ]})
          {[ "OPENAI_API_KEY" := "sk-1"; "OPENAI_BASE_URL" := "http://x";
             "OPENAI_MODEL" := "gpt-4o" ]} [] [])
  = Some ({[ "OPENAI_API_KEY" := JStr "sk-1"; "OPENAI_BASE_URL" := JStr "http://x";
             "OPENAI_MODEL" := JStr "gpt-4o" ]},
          mkIO (mkFS ∅ {[ "/x" := "1" ]})
               {[ "OPENAI_API_KEY" := "sk-1"; "OPENAI_BASE_URL" := "http://x";
                  "OPENAI_MODEL" := "gpt-4o" ]} [] []).
Proof.
  apply (@readConfigFile_second_run echo_config_env None
           (mkIO (mkFS ∅ {[ "/x" := "1" ]})
                 {[ "OPENAI_API_KEY" := "sk-1"; "OPENAI_BASE_URL" := "http://x";
                    "OPENAI_MODEL" := "gpt-4o" ]} [] [])).
  - vm_compute. reflexivity.
  - intros f Hf. rewrite /requiredFields in Hf.
    repeat (apply elem_of_cons in Hf as [->|Hf]; [vm_compute; reflexivity|]).
    inversion Hf.
  - vm_compute. reflexivity.
Defined.

(** ** Printing the configuration *)

Lemma substring_length_le (s : string) : forall n m,
  (String.length (String.substring n m s) <= m)%nat.
Proof.
  induction s as [|c s IH]; intros [|n] [|m]; simpl; try lia.
  - specialize (IH 0%nat m). lia.
  - apply (IH n 0%nat).
  - apply (IH n (S m)).
Qed.

(** X8: of a non-empty API key made of ASCII characters [printConfig] shows
    three stars and the last four characters, at most; the lines it prints
    are the same for any two such keys that end in the same four
    characters, so nothing else of the key is in them. *)
Theorem printConfig_masks_api_key `{ConfigEnv} (config : Config)
    (customConfigPath : option string) (k : string) :
  OPENAI_API_KEY config = Some k -> k ≠ "" -> ascii_only k = true ->
  printConfig config customConfigPath !! 2%nat
  = Some ("   OPENAI_API_KEY: " +:+ "***" +:+ slice_last 4 k)
  /\ (String.length (slice_last 4 k) <= 4)%nat
  /\ (forall k', k' ≠ "" -> ascii_only k' = true ->
        slice_last 4 k' = slice_last 4 k ->
        printConfig (with_api_key (Some k') config) customConfigPath
        = printConfig config customConfigPath).
Proof.
  intros Hk Hne _.
  assert (forall s, s ≠ "" -> truthy truthy_str (Some s) = true) as Htruthy.
  { intros s Hs. by apply negb_true_iff, String.eqb_neq. }
  split_and!.
  - by rewrite /printConfig Hk Htruthy.
  - apply substring_length_le.
  - intros k' Hne' _ Hlast. destruct config as [key base model ps r].
    simpl in Hk. subst key. rewrite /printConfig /with_api_key.
    cbn [OPENAI_API_KEY OPENAI_BASE_URL OPENAI_MODEL cfg_Providers cfg_Router str
         default].
    by rewrite !Htruthy // Hlast.
Qed.

Lemma printConfig_masks_api_key_witness :
  @printConfig demo_config_env
    (mkConfig (Some "sk-secret-1234") None None None None) None !! 2%nat
  = Some "   OPENAI_API_KEY: ***1234".
Proof.
  apply (@printConfig_masks_api_key demo_config_env
           (mkConfig (Some "sk-secret-1234") None None None None) None
           "sk-secret-1234" eq_refl).
  - discriminate.
  - reflexivity.
Defined.

(** ** The onboarding file *)

Section startup_files_facts.
Context `{NodeRuntime} `{ConfigEnv}.



End startup_files_facts.

(** ** More about the registry *)

Lemma find_snoc {A} (f : A -> bool) (l : list A) (a : A) :
  List.find f (l ++ [a])
  = match List.find f l with
    | Some x => Some x
    | None => if f a then Some a else None
    end.
Proof. induction l as [|b l IH]; simpl; [done|]. by destruct (f b). Qed.

Lemma jsmap_get_register m provider n :
  JsMap.get n (register m provider)
  = if String.eqb (name provider) n then Some provider else JsMap.get n m.
Proof.
  rewrite /register. destruct (String.eqb (name provider) n) eqn:E.
  - apply String.eqb_eq in E. subst n. apply jsmap_get_set_eq.
  - apply String.eqb_neq in E. by apply jsmap_get_set_ne.
Qed.

Lemma get_register_all l : forall m n,
  JsMap.get n (foldl register m l)
  = match List.find (fun p => String.eqb (name p) n) (rev l) with
    | Some p => Some p
    | None => JsMap.get n m
    end.
Proof.
  induction l as [|a l IH]; intros m n; simpl; [done|].
  rewrite IH find_snoc jsmap_get_register.
  destruct (List.find _ (rev l)); [done|]. by destruct (String.eqb _ _).
Qed.

Lemma named_providers_get config n :
  JsMap.get n (named_providers config)
  = List.find (fun p => String.eqb (name p) n)
              (rev (default [] (cfg_Providers config))).
Proof.
  rewrite /named_providers. destruct (cfg_Providers config) as [l|]; [|done].
  rewrite get_register_all /=. by destruct (List.find _ _).
Qed.

Lemma named_providers_own_name config k v :
  JsMap.get k (named_providers config) = Some v -> name v = k.
Proof.
  rewrite named_providers_get. intros [_ Heq]%find_some.
  by apply String.eqb_eq.
Qed.

(** X10: a name other than ["default"] resolves to the last provider of
    [config.Providers] that carries it (a later one replaces an earlier
    one), and to nothing when no provider carries it. *)
Theorem registry_lookup_last_wins (config : Config) (n : string) :
  n ≠ "default" ->
  JsMap.get n (registerProviders config)
  = List.find (fun p => String.eqb (name p) n)
              (rev (default [] (cfg_Providers config))).
Proof.
  intros Hne. rewrite registerProviders_eq -named_providers_get.
  destruct (has_default_triple config); [by apply jsmap_get_set_ne|].
  destruct (named_providers config) as [|[k q] m] eqn:Hnamed; [done|].
  by apply jsmap_get_set_ne.
Qed.

Lemma registry_lookup_last_wins_witness :
  JsMap.get "p1"
    (registerProviders
       (mkConfig (Some "k") (Some "http://d") (Some "m")
          (Some [mkProvider "p1" "http://a" "k1" ["m1"];
                 mkProvider "p2" "http://b" "k2" ["m2"];
                 mkProvider "p1" "http://c" "k3" ["m3"]]) None))
  = Some (mkProvider "p1" "http://c" "k3" ["m3"]).
Proof.
  apply (registry_lookup_last_wins
           (mkConfig (Some "k") (Some "http://d") (Some "m")
              (Some [mkProvider "p1" "http://a" "k1" ["m1"];
                     mkProvider "p2" "http://b" "k2" ["m2"];
                     mkProvider "p1" "http://c" "k3" ["m3"]]) None) "p1").
  discriminate.
Defined.

Lemma registerProviders_own_names (config : Config) :
  own_names (registerProviders config).
Proof.
  intros k v. rewrite registerProviders_eq.
  destruct (has_default_triple config).
  - destruct (decide (k = "default")) as [->|Hne].
    + rewrite jsmap_get_set_eq. intros [= <-]. apply jsmap_get_set_eq.
    + rewrite jsmap_get_set_ne; [done|]. intros Hget.
      by rewrite (named_providers_own_name _ _ _ Hget) jsmap_get_set_ne.
  - destruct (named_providers config) as [|[k0 q] m] eqn:Hnamed; [done|].
    assert (JsMap.get k0 (named_providers config) = Some q) as Hq.
    { by rewrite Hnamed /= eqb_refl'. }
    pose proof (named_providers_own_name _ _ _ Hq) as Hk0.
    rewrite -Hnamed.
    destruct (decide (k = "default")) as [->|Hne].
    + rewrite jsmap_get_set_eq. intros [= <-]. rewrite Hk0.
      destruct (decide (k0 = "default")) as [->|Hne0]; [apply jsmap_get_set_eq|].
      by rewrite jsmap_get_set_ne.
    + rewrite jsmap_get_set_ne; [done|]. intros Hget.
      by rewrite (named_providers_own_name _ _ _ Hget) jsmap_get_set_ne.
Qed.

(** X11: whatever name resolves to a provider, the provider's own [name]
    resolves to that same record; so the key of the client cache, which is
    the record's [name], stands for one record only. *)
Theorem registry_own_names (config : Config) (k : string) (v : ModelProvider) :
  JsMap.get k (registerProviders config) = Some v ->
  JsMap.get (name v) (registerProviders config) = Some v.
Proof. apply registerProviders_own_names. Qed.

Lemma registry_own_names_witness :
  JsMap.get "p1" (registerProviders demo_config)
  = Some (mkProvider "p1" "http://a" "k1" ["m1"; "m2"]).
Proof.
  apply (registry_own_names demo_config "default"
           (mkProvider "p1" "http://a" "k1" ["m1"; "m2"])).
  reflexivity.
Defined.

(** ** More about the client cache *)

Lemma reachable_own_names config env0 w :
  reachable config env0 w -> own_names (Providers w).
Proof.
  intros Hreach. rewrite (reachable_Providers _ _ _ Hreach).
  apply registerProviders_own_names.
Qed.

Lemma getProviderInstance_env w providerName :
  env (getProviderInstance providerName w).1 = env w.
Proof.
  rewrite getProviderInstance_eq.
  destruct (JsMap.get _ _); [|done]. by destruct (LRU.get _ _ _) as [[h|] c'].
Qed.

Lemma cache_sound_lookup config env0 w providerName :
  reachable config env0 w -> cache_sound env0 w ->
  cache_sound env0 (getProviderInstance providerName w).1.
Proof.
  intros Hreach [Henv Hall].
  split; [by rewrite getProviderInstance_env|].
  rewrite getProviderInstance_Providers.
  destruct (JsMap.get providerName (Providers w)) as [provider|] eqn:Hget; last first.
  { by rewrite getProviderInstance_eq Hget. }
  destruct (getProviderInstance_cases w providerName provider Hget)
    as [e Hfind Hstale|l' Hl'].
  - rewrite /with_entries /set_cache. cbn [fst providerCache LRU.entries].
    rewrite ->Forall_forall in Hall. apply Forall_cons. split.
    + apply Hall. by destruct (find_Some_inv _ _ _ Hfind).
    + apply Forall_forall. intros e' Hin. apply Hall.
      eapply elem_of_sublist; [done|apply remove_sublist].
  - rewrite /with_entries /set_cache. cbn [fst providerCache LRU.entries].
    apply Forall_cons. split.
    + exists provider. split_and!; try done.
      * apply (reachable_own_names config env0 w Hreach _ _ Hget).
      * by rewrite -Henv.
    + rewrite ->Forall_forall in Hall. apply Forall_forall. intros e' Hin.
      apply Hall.
      assert (l' `sublist_of` LRU.entries (providerCache w)) as Hsub.
      { destruct Hl' as [[_ ->]|(e & _ & _ & ->)]; [done|apply remove_sublist]. }
      eapply elem_of_sublist; [|exact Hsub].
      destruct (_ <=? _)%nat; [|done].
      eapply elem_of_sublist; [done|apply removelast_sublist].
Qed.

Lemma cache_sound_reachable config env0 w :
  reachable config env0 w -> cache_sound env0 w.
Proof.
  induction 1 as [now|w now Hreach IH Hle|w providerName Hreach IH|w l r Hreach IH].
  - by split.
  - done.
  - by apply (cache_sound_lookup config).
  - done.
Qed.

(** X12: in every state the service can reach, the client a lookup returns,
    cached or new, was made for the provider registered under the looked-up
    name: it has the provider's key, the provider's base URL when that is
    not empty and the URL "https://api.openai.com/v1" of the constructor
    when it is, and the proxy agent of the environment. *)
Theorem lookup_returns_client_of_provider config env0 w providerName h w' :
  reachable config env0 w ->
  getProviderInstance providerName w = (w', Return h) ->
  exists provider,
    JsMap.get providerName (registerProviders config) = Some provider
    /\ baseURL h
       = (if String.eqb (api_base_url provider) ""
          then "https://api.openai.com/v1" else api_base_url provider)
    /\ apiKey h = api_key provider
    /\ httpAgent h = getOpenAICommonOptions env0.
Proof.
  intros Hreach Hcall.
  destruct (cache_sound_reachable _ _ _ Hreach) as [Henv Hall].
  rewrite -(reachable_Providers _ _ _ Hreach).
  destruct (JsMap.get providerName (Providers w)) as [provider|] eqn:Hget; last first.
  { by rewrite getProviderInstance_eq Hget in Hcall. }
  exists provider. split; [done|].
  destruct (getProviderInstance_cases w providerName provider Hget)
    as [e Hfind Hstale|l' Hl'].
  - injection Hcall as _ <-.
    destruct (find_Some_inv _ _ _ Hfind) as [Hin Hkey].
    rewrite ->Forall_forall in Hall.
    destruct (Hall e Hin) as (provider' & Hget' & _ & Hbuilt).
    pose proof (reachable_own_names _ _ _ Hreach _ _ Hget) as Hown.
    rewrite Hkey Hown in Hget'. injection Hget' as <-.
    destruct Hbuilt as (-> & -> & ->). rewrite /openai_baseURL /truthy_str.
    by destruct (String.eqb _ _).
  - injection Hcall as _ <-. rewrite /= Henv /openai_baseURL /truthy_str.
    by destruct (String.eqb _ _).
Qed.

Lemma lookup_returns_client_of_provider_witness :
  exists provider,
    JsMap.get "default" (registerProviders demo_config) = Some provider
    /\ "k1" = api_key provider.
Proof.
  assert (getProviderInstance "default" (startup demo_config ∅ 5)
          = ((getProviderInstance "default" (startup demo_config ∅ 5)).1,
             Return (mkOpenAI 0 "http://a" "k1" None))) as Hcall
    by (vm_compute; reflexivity).
  destruct (lookup_returns_client_of_provider demo_config ∅ _ "default" _ _
              (reach_startup demo_config ∅ 5) Hcall)
    as (provider & Hget & _ & Hkey & _).
  by exists provider.
Defined.

Lemma find_remove_ne {V} k k' (l : list (LRU.entry V)) :
  k ≠ k' -> LRU.find k (LRU.remove k' l) = LRU.find k l.
Proof.
  intros Hne. induction l as [|a l IH]; [done|].
  rewrite remove_cons find_cons.
  destruct (String.eqb (LRU.key a) k') eqn:E.
  - apply String.eqb_eq in E.
    assert (String.eqb (LRU.key a) k = false) as ->; [|done].
    apply String.eqb_neq. congruence.
  - by rewrite find_cons IH.
Qed.

Lemma jsmap_get_in_keys {V} k (m : JsMap.t V) v :
  JsMap.get k m = Some v -> k ∈ m.*1.
Proof.
  induction m as [|[k' v'] m IH]; simpl; [done|].
  destruct (String.eqb k' k) eqn:E.
  - apply String.eqb_eq in E. subst. intros _. constructor.
  - intros Hget. constructor. by apply IH.
Qed.

Lemma runs_until_reachable config env0 deadline w w' :
  reachable config env0 w -> runs_until deadline w w' -> reachable config env0 w'.
Proof.
  intros Hreach. induction 1; [done|..].
  - apply reach_tick; auto.
  - apply reach_lookup; auto.
  - apply reach_output; auto.
Qed.

(** A lookup of a provider other than the one of an entry does not remove
    that entry when there is room for every registered name. *)
Lemma lookup_keeps_other_entry config env0 w providerName k e :
  reachable config env0 w ->
  (JsMap.size (registerProviders config) <= cache_max)%nat ->
  LRU.find k (LRU.entries (providerCache w)) = Some e ->
  LRU.start e = 0 \/ clock w <= LRU.start e + cache_ttl ->
  LRU.find k (LRU.entries (providerCache (getProviderInstance providerName w).1))
  = Some e.
Proof.
  intros Hreach Hsize Hfind Hclock.
  destruct (reachable_cache_ok _ _ _ Hreach) as [Hk Hs Hm Ht Ho Ha].
  destruct (cache_sound_reachable _ _ _ Hreach) as [Henv Hall].
  destruct (JsMap.get providerName (Providers w)) as [provider|] eqn:Hget; last first.
  { by rewrite getProviderInstance_eq Hget. }
  destruct (find_Some_inv _ _ _ Hfind) as [Hin Hkey].
  assert (forall e', LRU.find (name provider) (LRU.entries (providerCache w)) = Some e' ->
                     LRU.isStale (providerCache w) e' (clock w) = true ->
                     name provider ≠ k) as Hother.
  { intros e' Hfind' Hstale Heq. rewrite Heq Hfind in Hfind'. injection Hfind' as <-.
    apply isStale_true_inv in Hstale as [Hs0 Hlt]. rewrite Ht in Hlt.
    destruct Hclock; [done|lia]. }
  destruct (getProviderInstance_cases w providerName provider Hget)
    as [e2 Hfind2 Hstale|l' Hl'];
    rewrite /with_entries /set_cache; cbn [fst providerCache LRU.entries].
  - destruct (find_Some_inv _ _ _ Hfind2) as [_ Hkey2].
    rewrite find_cons. destruct (String.eqb (LRU.key e2) k) eqn:E.
    + apply String.eqb_eq in E. rewrite Hkey2 in E.
      rewrite E in Hfind2. congruence.
    + apply String.eqb_neq in E. rewrite find_remove_ne; [congruence|done].
  - assert (name provider ≠ k /\ LRU.find k l' = Some e
            /\ LRU.find (name provider) l' = None
            /\ l' `sublist_of` LRU.entries (providerCache w))
      as (Hne & Hfind' & Hnone & Hsub).
    { destruct Hl' as [[Hnone ->]|(e2 & Hfind2 & Hstale & ->)].
      - split_and!; try done. intros Heq. by rewrite Heq Hfind in Hnone.
      - pose proof (Hother _ Hfind2 Hstale) as Hne.
        split_and!; [done| |apply find_remove|apply remove_sublist].
        by rewrite find_remove_ne. }
    assert (length l' < cache_max)%nat as Hroom.
    { assert (NoDup (name provider :: (LRU.key <$> l'))) as Hnd.
      { apply NoDup_cons. split; [by apply find_None_iff|].
        exact (sublist_NoDup _ _ Hk (fmap_sublist LRU.key _ _ Hsub)). }
      assert (forall x, x ∈ name provider :: (LRU.key <$> l') -> x ∈ (Providers w).*1)
        as Hincl.
      { intros x [->|Hx]%elem_of_cons.
        - eapply jsmap_get_in_keys.
          by apply (reachable_own_names _ _ _ Hreach _ _ Hget).
        - apply list_elem_of_fmap in Hx as (e' & -> & Hin').
          rewrite ->Forall_forall in Hall.
          destruct (Hall e') as (p' & Hget' & _);
            [by eapply elem_of_sublist|].
          by eapply jsmap_get_in_keys. }
      pose proof (submseteq_length _ _ (NoDup_submseteq _ _ Hnd Hincl)) as Hlen.
      rewrite (reachable_Providers _ _ _ Hreach) /= !length_fmap in Hlen.
      rewrite /JsMap.size in Hsize. lia. }
    rewrite Hm. destruct (Nat.leb_spec cache_max (length l')) as [?|_]; [lia|].
    rewrite find_cons /=.
    assert (String.eqb (name provider) k = false) as ->; [|done].
    by apply String.eqb_neq.
Qed.

(** An entry within its time to live stays in the cache along every run of
    the service that ends before the entry expires, when there is room for
    every registered name. *)
Lemma entry_kept_along_run config env0 w w' k e :
  reachable config env0 w ->
  (JsMap.size (registerProviders config) <= cache_max)%nat ->
  LRU.find k (LRU.entries (providerCache w)) = Some e ->
  LRU.start e = 0 \/ clock w <= LRU.start e + cache_ttl ->
  runs_until (LRU.start e + cache_ttl) w w' ->
  reachable config env0 w'
  /\ (LRU.start e = 0 \/ clock w' <= LRU.start e + cache_ttl)
  /\ LRU.find k (LRU.entries (providerCache w')) = Some e.
Proof.
  intros Hreach Hsize Hfind Hclock Hruns.
  induction Hruns as [w|w w' now Hruns IH Hle Hdead|w w' providerName Hruns IH
                      |w w' l r Hruns IH].
  - done.
  - destruct (IH Hreach Hfind Hclock) as (Hreach' & _ & Hfind').
    split_and!; [by apply reach_tick|by right|done].
  - destruct (IH Hreach Hfind Hclock) as (Hreach' & Hclock' & Hfind').
    split_and!; [by apply reach_lookup| |by eapply lookup_keeps_other_entry].
    rewrite getProviderInstance_eq.
    destruct (JsMap.get _ _); [|done]. by destruct (LRU.get _ _ _) as [[h|] c'].
  - destruct (IH Hreach Hfind Hclock) as (Hreach' & Hclock' & Hfind').
    split_and!; [by apply reach_output|done|done].
Qed.

(** X13: when the registry has at most 10 names, a cached client stays in
    the cache, the same instance with the same age, through whatever lookups
    follow, of any names in any order, until 2 hours after it was built. *)
Theorem cached_client_kept_until_expiry config env0 w w' k e :
  reachable config env0 w ->
  (JsMap.size (registerProviders config) <= 10)%nat ->
  LRU.find k (LRU.entries (providerCache w)) = Some e ->
  clock w <= LRU.start e + cache_ttl ->
  runs_until (LRU.start e + cache_ttl) w w' ->
  LRU.find k (LRU.entries (providerCache w')) = Some e.
Proof.
  intros Hreach Hsize Hfind Hclock Hruns.
  by destruct (entry_kept_along_run config env0 w w' k e Hreach Hsize Hfind
                 (or_intror Hclock) Hruns) as (_ & _ & Hgoal).
Qed.

Lemma cached_client_kept_until_expiry_witness :
  exists e,
    LRU.find "p2"
      (LRU.entries (providerCache
         (getProviderInstance "p1"
            (set_clock 9 (getProviderInstance "p2" (startup demo_config ∅ 5)).1)).1))
    = Some e
    /\ LRU.start e = 5.
Proof.
  exists (LRU.mkEntry "p2" (mkOpenAI 0 "http://b" "k2" None) 5). split; [|done].
  apply (cached_client_kept_until_expiry demo_config ∅
           (getProviderInstance "p2" (startup demo_config ∅ 5)).1).
  - apply reach_lookup, reach_startup.
  - vm_compute. lia.
  - vm_compute. reflexivity.
  - vm_compute. discriminate.
  - apply runs_lookup, runs_tick; [apply runs_here|..]; vm_compute; discriminate.
Defined.

(** X14: the client a lookup has just returned is still in the cache after
    the next lookup of any other provider, at any time, however full the
    cache is: the entry evicted for room is never the most recently used. *)
Theorem last_used_client_survives_next_lookup
    config env0 w n1 h1 w1 p1 n2 now :
  reachable config env0 w ->
  getProviderInstance n1 w = (w1, Return h1) ->
  JsMap.get n1 (registerProviders config) = Some p1 ->
  (forall p2, JsMap.get n2 (registerProviders config) = Some p2 ->
              name p2 ≠ name p1) ->
  exists e,
    LRU.find (name p1)
      (LRU.entries (providerCache (getProviderInstance n2 (set_clock now w1)).1))
    = Some e
    /\ LRU.value e = h1.
Proof.
  intros Hreach Hcall Hp1 Hp2.
  rewrite -(reachable_Providers _ _ _ Hreach) in Hp1 Hp2.
  pose proof (cache_ok_lookup w n1 (reachable_cache_ok _ _ _ Hreach)) as Hok.
  rewrite Hcall /= in Hok.
  destruct (lookup_entry_in_front w n1 p1 Hp1)
    as (e & rest & n & Heq & Hkey & Hrest & _ & _).
  rewrite Heq in Hcall. injection Hcall as <- <-.
  exists e. split; [|done].
  set (w1 := with_entries (set_next_oid n w) (e :: rest)) in *.
  assert (LRU.find (name p1) (e :: rest) = Some e) as Hfind
    by by rewrite find_cons -Hkey eqb_refl'.
  destruct (JsMap.get n2 (Providers (set_clock now w1))) as [p2|] eqn:Hget2; last first.
  { by rewrite getProviderInstance_eq Hget2. }
  pose proof (Hp2 p2 Hget2) as Hne.
  assert (String.eqb (name p2) (name p1) = false) as Hneb by by apply String.eqb_neq.
  assert (LRU.remove (name p2) (e :: rest) = e :: LRU.remove (name p2) rest) as Hrem.
  { rewrite remove_cons Hkey.
    assert (String.eqb (name p1) (name p2) = false) as ->; [|done].
    apply String.eqb_neq. congruence. }
  destruct (getProviderInstance_cases (set_clock now w1) n2 p2 Hget2)
    as [e2 Hfind2 Hstale|l' Hl'];
    rewrite /with_entries /set_cache; cbn [fst providerCache LRU.entries set_clock w1].
  - destruct (find_Some_inv _ _ _ Hfind2) as [_ Hkey2].
    by rewrite find_cons Hkey2 Hneb find_remove_ne.
  - assert (exists r', l' = e :: r') as [r' ->].
    { destruct Hl' as [[_ ->]|(e2 & _ & _ & ->)]; [by exists rest|].
      exists (LRU.remove (name p2) rest). exact Hrem. }
    rewrite find_cons. cbn [fresh_entry LRU.key]. rewrite Hneb.
    destruct Hok as [_ _ Hmax _ _ _]. cbn [w1 set_clock with_entries set_cache
      providerCache LRU.max] in Hmax |- *. rewrite Hmax.
    destruct (Nat.leb_spec cache_max (length (e :: r'))) as [Hfull|_];
      [|by rewrite find_cons -Hkey eqb_refl'].
    destruct r' as [|e' r']; [rewrite /cache_max /= in Hfull; lia|].
    change (removelast (e :: e' :: r')) with (e :: removelast (e' :: r')).
    by rewrite find_cons -Hkey eqb_refl'.
Qed.

Lemma last_used_client_survives_next_lookup_witness :
  exists e,
    LRU.find "p2"
      (LRU.entries (providerCache
         (getProviderInstance "p1"
            (set_clock 99999999
               (getProviderInstance "p2" (startup demo_config ∅ 5)).1)).1))
    = Some e
    /\ LRU.value e = mkOpenAI 0 "http://b" "k2" None.
Proof.
  assert (getProviderInstance "p2" (startup demo_config ∅ 5)
          = ((getProviderInstance "p2" (startup demo_config ∅ 5)).1,
             Return (mkOpenAI 0 "http://b" "k2" None))) as Hcall
    by (vm_compute; reflexivity).
  apply (last_used_client_survives_next_lookup demo_config ∅ _ "p2" _ _
           (mkProvider "p2" "http://b" "k2" ["m3"]) "p1" 99999999
           (reach_startup demo_config ∅ 5) Hcall eq_refl).
  intros p2 [= <-]. discriminate.
Defined.

(** ** More about the handler *)

Section gateway_more.
Context `{Collaborators}.

Lemma getProviderInstance_clock providerName w :
  clock (getProviderInstance providerName w).1 = clock w.
Proof.
  rewrite getProviderInstance_eq.
  destruct (JsMap.get _ _); [|done]. by destruct (LRU.get _ _ _) as [[h|] c'].
Qed.

(** X15: the handler sends to the response exactly the chunks the stream
    writer wrote, in order and after what was there, also when the writer
    fails midway; it logs one error line when the lookup, the backend call
    or the writer throws, and nothing otherwise; the registry, the
    environment and the clock are as before. *)
Theorem handler_response_and_log (req : Request) (w : World) :
  Providers (post_v1_messages req w).1 = Providers w
  /\ env (post_v1_messages req w).1 = env w
  /\ clock (post_v1_messages req w).1 = clock w
  /\ match getProviderInstance (or_default (req_provider req)) w with
     | (_, Throw e) =>
         res (post_v1_messages req w).1 = res w
         /\ console (post_v1_messages req w).1
            = console w ++ [console_error "Error in OpenAI API call:" e]
     | (_, Return h) =>
         match chat_completions_create h (req_body req) with
         | Throw e =>
             res (post_v1_messages req w).1 = res w
             /\ console (post_v1_messages req w).1
                = console w ++ [console_error "Error in OpenAI API call:" e]
         | Return completion =>
             match streamOpenAIResponse completion (body_model (req_body req))
                     (req_body req) with
             | (chunks, None) =>
                 res (post_v1_messages req w).1 = res w ++ chunks
                 /\ console (post_v1_messages req w).1 = console w
             | (chunks, Some e) =>
                 res (post_v1_messages req w).1 = res w ++ chunks
                 /\ console (post_v1_messages req w).1
                    = console w ++ [console_error "Error in OpenAI API call:" e]
             end
         end
     end.
Proof.
  pose proof (getProviderInstance_Providers w (or_default (req_provider req))) as HP.
  pose proof (getProviderInstance_env w (or_default (req_provider req))) as HE.
  pose proof (getProviderInstance_clock (or_default (req_provider req)) w) as HC.
  destruct (getProviderInstance_frame (or_default (req_provider req)) w) as [HR HL].
  rewrite /post_v1_messages /try_catch /bind /lift_outcome /stream_to_res.
  destruct (getProviderInstance _ w) as [w1 [h|e]]; simpl in *.
  - destruct (chat_completions_create h (req_body req)) as [completion|e]; simpl.
    + destruct (streamOpenAIResponse _ _ _) as [chunks [e|]];
        rewrite /modify /= write_chunks /=; by rewrite HP HE HC HR HL.
    + by rewrite HP HE HC HR HL.
  - by rewrite HP HE HC HR HL.
Qed.

End gateway_more.

(** ** The command line *)

Section cli_facts.
Context `{NodeRuntime}.

Lemma overlay_no_options o : overlay no_options o = o.
Proof. by destruct o. Qed.

Lemma overlay_assoc a b c : overlay (overlay a b) c = overlay a (overlay b c).
Proof.
  destruct a as [[?|] [?|]], b as [[?|] [?|]], c as [[?|] [?|]]; done.
Qed.

(** Induction on the arguments that follows the loop: a step passes one
    argument or two. *)
Lemma args_ind (P : list string -> Prop) :
  P [] -> (forall a, P [a]) ->
  (forall a b l, P l -> P (b :: l) -> P (a :: b :: l)) ->
  forall l, P l.
Proof.
  intros Hnil Hone Hstep l.
  assert (P l /\ forall a, P (a :: l)) as [? _]; [|done].
  induction l as [|b l [IH1 IH2]]; [by split|].
  split; [apply IH2|]. intros a. by apply Hstep.
Qed.

Lemma parse_options_overlay args : forall options,
  parse_options args options = overlay (parse_options args no_options) options.
Proof.
  induction args as [| |a b l IH1 IH2] using args_ind; intros options.
  - by rewrite /= overlay_no_options.
  - by rewrite /= overlay_no_options.
  - cbn [parse_options].
    destruct (String.eqb a "--config"); [|destruct (String.eqb a "--port")].
    + rewrite IH1 (IH1 (mkOptions _ _)) overlay_assoc. by destruct options.
    + rewrite IH1 (IH1 (mkOptions _ _)) overlay_assoc. by destruct options.
    + apply IH2.
Qed.

(** X16: the first argument after the script is the command.  A leading
    [--config v] or [--port v] gives a value that the flags after it
    override, and that stands when there is none; an argument that is no
    flag is passed over. *)
Theorem parseArgs_flags_accumulate (node script command v : string) (rest : list string) :
  (parseArgs (node :: script :: command :: rest)).1 = Some command
  /\ (parseArgs (node :: script :: command :: "--config" :: v :: rest)).2
     = overlay (parseArgs (node :: script :: command :: rest)).2
               (mkOptions (Some v) None)
  /\ (parseArgs (node :: script :: command :: "--port" :: v :: rest)).2
     = overlay (parseArgs (node :: script :: command :: rest)).2
               (mkOptions None (Some (parseInt v)))
  /\ (v ≠ "--config" -> v ≠ "--port" ->
      (parseArgs (node :: script :: command :: v :: rest)).2
      = (parseArgs (node :: script :: command :: rest)).2).
Proof.
  rewrite /parseArgs /=. split_and!.
  - done.
  - by rewrite parse_options_overlay.
  - by rewrite parse_options_overlay.
  - intros Hc Hp. destruct rest as [|next rest]; [done|].
    cbn [parse_options].
    assert (String.eqb v "--config" = false) as -> by by apply String.eqb_neq.
    by assert (String.eqb v "--port" = false) as -> by by apply String.eqb_neq.
Qed.

Lemma parse_options_sound args : forall options,
  (forall v, opt_config (parse_options args options) = Some v ->
     opt_config options = Some v
     \/ exists i, args !! i = Some "--config" /\ args !! S i = Some v)
  /\ (forall p, opt_port (parse_options args options) = Some p ->
        opt_port options = Some p
        \/ exists i v, args !! i = Some "--port" /\ args !! S i = Some v
                       /\ p = parseInt v).
Proof.
  induction args as [| |a b l IH1 IH2] using args_ind; intros options.
  - split; intros; by left.
  - split; intros; by left.
  - cbn [parse_options].
    destruct (String.eqb a "--config") eqn:Ec;
      [|destruct (String.eqb a "--port") eqn:Ep].
    + apply String.eqb_eq in Ec. subst a.
      destruct (IH1 (mkOptions (Some b) (opt_port options))) as [Hc Hp].
      split.
      * intros v [[= <-]|(i & Hi & Hv)]%Hc; right; [by exists 0%nat|].
        by exists (S (S i)).
      * intros p [Ho|(i & v & Hi & Hv & ->)]%Hp; [by left|right].
        by exists (S (S i)), v.
    + apply String.eqb_eq in Ep. subst a.
      destruct (IH1 (mkOptions (opt_config options) (Some (parseInt b)))) as [Hc Hp].
      split.
      * intros v [Ho|(i & Hi & Hv)]%Hc; [by left|right]. by exists (S (S i)).
      * intros p [[= <-]|(i & v & Hi & Hv & ->)]%Hp; right; [by exists 0%nat, b|].
        by exists (S (S i)), v.
    + destruct (IH2 options) as [Hc Hp]. split.
      * intros v [Ho|(i & Hi & Hv)]%Hc; [by left|right]. by exists (S i).
      * intros p [Ho|(i & v & Hi & Hv & ->)]%Hp; [by left|right].
        by exists (S i), v.
Qed.

(** X17: an option of [parseArgs] is never made up: [config] is an argument
    that follows a [--config] directly, [port] is [parseInt] of an argument
    that follows a [--port] directly, both after the command; so without
    the flag the option is unset. *)
Theorem parseArgs_options_come_from_flags (argv : list string) :
  (forall v, opt_config (parseArgs argv).2 = Some v ->
     exists i, (3 <= i)%nat /\ argv !! i = Some "--config" /\ argv !! S i = Some v)
  /\ (forall p, opt_port (parseArgs argv).2 = Some p ->
        exists i v, (3 <= i)%nat /\ argv !! i = Some "--port"
                    /\ argv !! S i = Some v /\ p = parseInt v)
  /\ ("--config" ∉ argv -> opt_config (parseArgs argv).2 = None)
  /\ ("--port" ∉ argv -> opt_port (parseArgs argv).2 = None).
Proof.
  assert (tail (drop 2 argv) = drop 3 argv) as Htail.
  { by destruct argv as [|a [|b [|c l]]]. }
  destruct (parse_options_sound (drop 3 argv) no_options) as [Hc Hp].
  rewrite /parseArgs /= Htail.
  assert (forall v, opt_config (parse_options (drop 3 argv) no_options) = Some v ->
            exists i, (3 <= i)%nat /\ argv !! i = Some "--config"
                      /\ argv !! S i = Some v) as Hc'.
  { intros v [[=]|(i & Hi & Hv)]%Hc. rewrite !lookup_drop in Hi Hv.
    exists (3 + i)%nat. split_and!; [lia|done..]. }
  assert (forall p, opt_port (parse_options (drop 3 argv) no_options) = Some p ->
            exists i v, (3 <= i)%nat /\ argv !! i = Some "--port"
                        /\ argv !! S i = Some v /\ p = parseInt v) as Hp'.
  { intros p [[=]|(i & v & Hi & Hv & ->)]%Hp. rewrite !lookup_drop in Hi Hv.
    exists (3 + i)%nat, v. split_and!; [lia|done..]. }
  split_and!; [done|done|..].
  - intros Hnot.
    destruct (opt_config (parse_options (drop 3 argv) no_options)) as [v|] eqn:E;
      [|done].
    destruct (Hc' v eq_refl) as (i & _ & Hi & _). exfalso. apply Hnot.
    by eapply list_elem_of_lookup_2.
  - intros Hnot.
    destruct (opt_port (parse_options (drop 3 argv) no_options)) as [p|] eqn:E;
      [|done].
    destruct (Hp' p eq_refl) as (i & v & _ & Hi & _). exfalso. apply Hnot.
    by eapply list_elem_of_lookup_2.
Qed.

(** X18: without a non-empty [SERVICE_PORT] the port of the service is a
    number other than zero, the port option when that is one and 3456
    otherwise (for a missing, a zero and a [NaN] option); with it, the port
    is [parseInt] of the variable, whatever that gives. *)
Theorem servicePort_fallback (options : Options) (env : gmap string string) :
  (truthy truthy_str (env !! "SERVICE_PORT") = false ->
   exists p, servicePort options env = Num p /\ p ≠ 0
             /\ (opt_port options = Some (Num p)
                 \/ p = 3456 /\ truthy truthy_num (opt_port options) = false))
  /\ (forall s, env !! "SERVICE_PORT" = Some s -> s ≠ "" ->
        servicePort options env = parseInt s).
Proof.
  split.
  - intros Henv. rewrite /servicePort Henv.
    destruct (opt_port options) as [[p|]|] eqn:Hp; simpl;
      [|by exists 3456; split_and!; [done|lia|right]..].
    destruct (Z.eqb_spec p 0) as [->|Hne]; simpl.
    + exists 3456. split_and!; [done|lia|by right].
    + exists p. split_and!; [done|done|by left].
  - intros s Hs Hne. rewrite /servicePort Hs /=.
    assert (truthy_str s = true) as ->; [|done].
    by apply negb_true_iff, String.eqb_neq.
Qed.

(** X19: whatever fails, [stop] begins by reading the PID file, calls
    [cleanupPidFile] at least once and prints exactly one of its two
    messages; it kills only the process whose id is [parseInt] of the file's
    content; it reports success exactly when the file was read and both the
    kill and the cleanup went through, and only an error of the second
    cleanup escapes. *)
Theorem stop_always_cleans_up (o : StopOracle) :
  head (main_stop o) = Some EvReadPidFile
  /\ (1 <= length (List.filter is_cleanup (main_stop o)) <= 2)%nat
  /\ length (List.filter is_log (main_stop o)) = 1%nat
  /\ (forall pid, EvKill pid ∈ main_stop o ->
        exists content, pid_file o = Return content /\ pid = parseInt content)
  /\ (EvLog stopped_message ∈ main_stop o <->
      exists content, pid_file o = Return content
                      /\ kill_error o (parseInt content) = None
                      /\ cleanup_error_in_try o = None)
  /\ (forall e, EvConsoleError e ∈ main_stop o ->
        cleanup_error_in_catch o = Some e
        /\ EvLog failed_message ∈ main_stop o).
Proof.
  destruct o as [[content|e0] kill ct re ue cc];
    rewrite /main_stop /stop_try; cbn [pid_file kill_error cleanup_error_in_try
      reference_count_exists unlink_error cleanup_error_in_catch].
  - destruct (kill (parseInt content)) as [ek|] eqn:Hk;
      [|destruct ct as [ec|]]; destruct re, cc as [e2|];
      (split; [done|]); (split; [simpl; lia|]); (split; [done|]);
      simpl; repeat setoid_rewrite elem_of_cons; repeat setoid_rewrite elem_of_nil;
      naive_solver.
  - destruct cc as [e2|];
      (split; [done|]); (split; [simpl; lia|]); (split; [done|]);
      simpl; repeat setoid_rewrite elem_of_cons; repeat setoid_rewrite elem_of_nil;
      naive_solver.
Qed.

End cli_facts.

(** ** Prompts and answers of the loader *)

Section config_prompts.
Context `{ConfigEnv}.

Lemma fill_required_answers fields : NoDup fields ->
  forall config needsUpdate io config' needsUpdate' io',
    fill_required fields config needsUpdate io = Some (config', needsUpdate', io') ->
    stdin io'
    = drop (length (List.filter (missing_both (process_env io) config) fields))
           (stdin io)
    /\ stdout io'
       = stdout io
         ++ (prompt <$> List.filter (missing_both (process_env io) config) fields)
    /\ (forall i f a,
          List.filter (missing_both (process_env io) config) fields !! i = Some f ->
          stdin io !! i = Some a ->
          config' !! f = Some (JStr a)).
Proof.
  induction fields as [|field fields IH];
    intros Hnd config needsUpdate io config' needsUpdate' io' Hrun.
  { injection Hrun as <- <- <-. rewrite app_nil_r. by split_and!. }
  apply NoDup_cons in Hnd as [Hnot Hnd].
  cbn [fill_required List.filter] in Hrun |- *.
  destruct (truthy truthy_str (process_env io !! field)) eqn:Henv.
  - assert (missing_both (process_env io) config field = false) as ->
      by by rewrite /missing_both Henv.
    destruct (IH Hnd _ _ _ _ _ _ Hrun) as (Hin & Hout & Hans).
    by rewrite filter_missing_insert // in Hin Hout Hans.
  - destruct (truthy truthy_json (config !! field)) eqn:Hcfg; cbn [negb] in Hrun.
    + assert (missing_both (process_env io) config field = false) as ->
        by by rewrite /missing_both Henv Hcfg.
      by apply (IH Hnd _ _ _ _ _ _ Hrun).
    + assert (missing_both (process_env io) config field = true) as ->
        by by rewrite /missing_both Henv Hcfg.
      rewrite /question in Hrun.
      destruct (stdin io) as [|answer rest] eqn:Hstdin; [done|].
      destruct (fill_required_inv _ Hnd _ _ _ _ _ _ Hrun) as (_ & _ & _ & _ & _ & _ & _ & Hother).
      destruct (IH Hnd _ _ _ _ _ _ Hrun) as (Hin & Hout & Hans).
      cbn [process_env stdin stdout] in Hin, Hout, Hans.
      rewrite filter_missing_insert // in Hin Hout Hans.
      split_and!.
      * done.
      * by rewrite Hout -app_assoc.
      * intros [|i] f a; simpl.
        -- intros [= <-] [= <-]. by rewrite Hother // lookup_insert_eq.
        -- apply Hans.
Qed.

(** X20: where [readConfigFile] returns, it has prompted for the required
    fields that neither the environment nor the file with its defaults
    provides, for those only, in the order API key, base URL, model, and
    each field it prompted for has in the result the answer given to its
    own prompt. *)
Theorem readConfigFile_answers_go_to_their_fields customConfigPath io config io' :
  readConfigFile customConfigPath io = Some (config, io') ->
  exists asked,
    asked = List.filter
              (missing_both (process_env io)
                 (read_existing (getConfigFile customConfigPath) (fs io)
                  ∪ DEFAULT_CONFIG)) requiredFields
    /\ asked `sublist_of` requiredFields
    /\ stdout io' = stdout io ++ (prompt <$> asked)
    /\ (forall i f a, asked !! i = Some f -> stdin io !! i = Some a ->
                      config !! f = Some (JStr a)).
Proof.
  rewrite /readConfigFile.
  destruct (fill_required _ _ _ _) as [[[c nu] io1]|] eqn:Hloop; [|done].
  destruct (fill_required_answers _ requiredFields_NoDup _ _ _ _ _ _ Hloop)
    as (Hin & Hout & Hans).
  intros Hrun. eexists. split; [reflexivity|].
  assert (config = c /\ stdout io' = stdout io1)
    as (-> & ->) by (by destruct nu; injection Hrun as <- <-).
  split_and!; try done.
  clear. induction requiredFields as [|f l IH]; simpl; [constructor|].
  destruct (missing_both _ _ f); by constructor.
Qed.

End config_prompts.

Lemma readConfigFile_answers_go_to_their_fields_witness :
  exists config io',
    @readConfigFile echo_config_env None
      (mkIO (mkFS ∅ ∅) {[ "OPENAI_BASE_URL" := "http://x" ]} ["sk-1"; "gpt-4o"; "more"] [])
    = Some (config, io')
    /\ config !! "OPENAI_MODEL" = Some (JStr "gpt-4o").
Proof.
  destruct (@readConfigFile echo_config_env None
              (mkIO (mkFS ∅ ∅) {[ "OPENAI_BASE_URL" := "http://x" ]}
                    ["sk-1"; "gpt-4o"; "more"] []))
    as [[config io']|] eqn:Hrun; [|vm_compute in Hrun; discriminate Hrun].
  exists config, io'. split; [reflexivity|].
  destruct (@readConfigFile_answers_go_to_their_fields echo_config_env _ _ _ _ Hrun)
    as (asked & -> & _ & _ & Hans).
  by apply (Hans 1%nat).
Defined.

(** ** The client cache: reuse, expiry and eviction *)

Lemma lookup_hit_eq w providerName provider e :
  JsMap.get providerName (Providers w) = Some provider ->
  LRU.find (name provider) (LRU.entries (providerCache w)) = Some e ->
  LRU.isStale (providerCache w) e (clock w) = false ->
  getProviderInstance providerName w
  = (with_entries w (e :: LRU.remove (name provider) (LRU.entries (providerCache w))),
     Return (LRU.value e)).
Proof.
  intros Hget Hfind Hstale.
  by rewrite getProviderInstance_eq Hget /LRU.get Hfind Hstale.
Qed.

Lemma live_not_stale (c : LRU.t OpenAI) e now :
  LRU.ttl c = cache_ttl ->
  LRU.start e = 0 \/ now <= LRU.start e + cache_ttl ->
  LRU.isStale c e now = false.
Proof.
  intros Ht [Hs|Hle].
  - by rewrite /LRU.isStale Hs /= andb_false_r.
  - apply isStale_false_of_le. by rewrite Ht.
Qed.

Lemma not_stale_live (c : LRU.t OpenAI) e now :
  LRU.ttl c = cache_ttl ->
  LRU.isStale c e now = false ->
  LRU.start e = 0 \/ now <= LRU.start e + cache_ttl.
Proof.
  intros Ht Hstale.
  destruct (decide (LRU.start e = 0)) as [?|Hne]; [by left|right].
  destruct (Z.le_gt_cases now (LRU.start e + cache_ttl)) as [?|Hlt]; [done|].
  by rewrite isStale_true_of_lt in Hstale.
Qed.

(** The entry a lookup leaves for its provider: it holds the returned
    client, it is within its time to live, and it is either the entry that
    was cached, unchanged, or a new one that starts at the time of the call. *)
Lemma lookup_leaves_live_entry w providerName provider h1 w1 :
  LRU.ttl (providerCache w) = cache_ttl ->
  JsMap.get providerName (Providers w) = Some provider ->
  getProviderInstance providerName w = (w1, Return h1) ->
  exists e,
    LRU.find (name provider) (LRU.entries (providerCache w1)) = Some e
    /\ LRU.value e = h1
    /\ (LRU.start e = 0 \/ clock w1 <= LRU.start e + cache_ttl)
    /\ (next_oid w1 = next_oid w
        /\ LRU.find (name provider) (LRU.entries (providerCache w)) = Some e
        \/ next_oid w1 = S (next_oid w) /\ e = fresh_entry w provider).
Proof.
  intros Ht Hget Hcall.
  destruct (getProviderInstance_cases w providerName provider Hget)
    as [e Hfind Hstale|l' Hl']; injection Hcall as <- <-.
  - exists e. destruct (find_Some_inv _ _ _ Hfind) as [_ Hkey].
    split_and!; [|done| |by left].
    + rewrite /with_entries /set_cache. cbn [providerCache LRU.entries].
      by rewrite find_cons Hkey eqb_refl'.
    + by apply (not_stale_live (providerCache w)).
  - exists (fresh_entry w provider).
    split_and!; [|done| |by right].
    + rewrite /with_entries /set_cache. cbn [providerCache LRU.entries].
      by rewrite find_cons /= eqb_refl'.
    + right. rewrite /= /cache_ttl. lia.
Qed.

(** Along a run every cached entry is one that was cached at the beginning
    or holds a client built during the run. *)
Lemma run_entries_old_or_new deadline w w' :
  runs_until deadline w w' ->
  (next_oid w <= next_oid w')%nat
  /\ Forall (fun e => e ∈ LRU.entries (providerCache w)
                      \/ (next_oid w <= oid (LRU.value e))%nat)
            (LRU.entries (providerCache w')).
Proof.
  induction 1 as [w|w w' now Hruns IH Hle Hdead|w w' providerName Hruns IH
                  |w w' l r Hruns IH].
  - split; [done|]. apply Forall_forall. by left.
  - done.
  - destruct IH as [Hn Hall].
    destruct (JsMap.get providerName (Providers w')) as [provider|] eqn:Hget; last first.
    { by rewrite getProviderInstance_eq Hget. }
    destruct (lookup_entry_in_front w' providerName provider Hget)
      as (e & rest & n & -> & _ & _ & Hsub & Hn').
    rewrite /with_entries /set_cache. cbn [fst providerCache LRU.entries next_oid].
    rewrite ->Forall_forall in Hall.
    split; [destruct Hn' as [[-> _]|[-> _]]; simpl; lia|].
    apply Forall_cons. split.
    + destruct Hn' as [[_ Hfind]|[_ ->]].
      * apply Hall. by destruct (find_Some_inv _ _ _ Hfind).
      * right. simpl. lia.
    + apply Forall_forall. intros e' Hin. apply Hall.
      by eapply elem_of_sublist.
  - done.
Qed.

(** C4, as the code has it: a lookup of a registered name returns a client
    (surely so when no proxy is configured), and leaves it in the cache in an
    entry whose age runs from the construction of the client, not from its
    last use.  When the registry has at most 10 names, every lookup of the
    name that follows, after whatever other lookups, returns this same
    instance and builds nothing, as long as the clock is not past 2 hours
    after the construction.  A lookup of the name that returns later than
    that, the clock not having read 0 at the construction, never returns
    this instance but one built after it, which the lookup itself builds
    when it still finds the old entry. *)
Theorem handle_reused_until_expiry config env0 w providerName provider :
  reachable config env0 w ->
  JsMap.get providerName (registerProviders config) = Some provider ->
  (getOpenAICommonOptions env0 = None ->
   exists h1 w1, getProviderInstance providerName w = (w1, Return h1))
  /\ forall h1 w1,
       getProviderInstance providerName w = (w1, Return h1) ->
       exists e,
         LRU.find (name provider) (LRU.entries (providerCache w1)) = Some e
         /\ LRU.value e = h1
         /\ (next_oid w1 = next_oid w
             /\ LRU.find (name provider) (LRU.entries (providerCache w)) = Some e
             \/ next_oid w1 = S (next_oid w)
                /\ oid h1 = next_oid w /\ LRU.start e = clock w)
         /\ ((JsMap.size (registerProviders config) <= 10)%nat ->
             forall w2,
               runs_until (LRU.start e + 2 * 60 * 60 * 1000) w1 w2 ->
               exists w3,
                 getProviderInstance providerName w2 = (w3, Return h1)
                 /\ next_oid w3 = next_oid w2)
         /\ (LRU.start e ≠ 0 ->
             forall deadline w2 h2 w3,
               runs_until deadline w1 w2 ->
               LRU.start e + 2 * 60 * 60 * 1000 < clock w2 ->
               getProviderInstance providerName w2 = (w3, Return h2) ->
               h2 ≠ h1
               /\ (oid h1 < oid h2)%nat
               /\ (LRU.find (name provider) (LRU.entries (providerCache w2)) = Some e ->
                   h2 = new_handle w2 provider
                   /\ next_oid w3 = S (next_oid w2))).
Proof.
  intros Hreach Hget.
  pose proof (reachable_Providers _ _ _ Hreach) as HP.
  assert (JsMap.get providerName (Providers w) = Some provider) as Hgetw
    by by rewrite HP.
  split.
  { intros _.
    destruct (getProviderInstance_cases w providerName provider Hgetw); eauto. }
  intros h1 w1 Hcall.
  destruct (reachable_cache_ok _ _ _ Hreach) as [_ _ _ Ht _ _].
  destruct (lookup_leaves_live_entry w providerName provider h1 w1 Ht Hgetw Hcall)
    as (e & Hfind1 & Hval & Hlive & Hhow).
  assert (reachable config env0 w1) as Hreach1.
  { replace w1 with (getProviderInstance providerName w).1 by by rewrite Hcall.
    by apply reach_lookup. }
  exists e. split_and!; [done|done| | |].
  - destruct Hhow as [?|[Hn ->]]; [by left|right].
    split_and!; [done| |done]. by rewrite -Hval.
  - intros Hsize w2 Hruns.
    destruct (entry_kept_along_run config env0 w1 w2 (name provider) e
                Hreach1 Hsize Hfind1 Hlive Hruns) as (Hreach2 & Hlive2 & Hfind2).
    destruct (reachable_cache_ok _ _ _ Hreach2) as [_ _ _ Ht2 _ _].
    eexists. split.
    + rewrite -Hval. apply lookup_hit_eq; [|done|].
      * by rewrite (reachable_Providers _ _ _ Hreach2).
      * by apply live_not_stale.
    + done.
  - intros Hstart deadline w2 h2 w3 Hruns Hlate Hcall2.
    pose proof (runs_until_reachable _ _ _ _ _ Hreach1 Hruns) as Hreach2.
    destruct (run_entries_old_or_new _ _ _ Hruns) as [Hn Hall].
    destruct (reachable_cache_ok _ _ _ Hreach1) as [Hk1 _ _ _ _ Ha1].
    destruct (reachable_cache_ok _ _ _ Hreach2) as [_ _ _ Ht2 _ _].
    destruct (find_Some_inv _ _ _ Hfind1) as [Hin1 Hkey1].
    assert (oid h1 < next_oid w1)%nat as Hold.
    { rewrite ->Forall_forall in Ha1. rewrite -Hval. by apply Ha1. }
    assert (LRU.isStale (providerCache w2) e (clock w2) = true) as Hstale
      by by apply isStale_true_of_lt.
    assert (JsMap.get providerName (Providers w2) = Some provider) as Hget2
      by by rewrite (reachable_Providers _ _ _ Hreach2).
    assert (oid h1 < oid h2
            /\ (LRU.find (name provider) (LRU.entries (providerCache w2)) = Some e ->
                h2 = new_handle w2 provider /\ next_oid w3 = S (next_oid w2)))%nat
      as [Hlt Hnew].
    { destruct (getProviderInstance_cases w2 providerName provider Hget2)
        as [e2 Hfind2 Hstale2|l' Hl']; injection Hcall2 as <- <-.
      - destruct (find_Some_inv _ _ _ Hfind2) as [Hin2 Hkey2].
        rewrite ->Forall_forall in Hall.
        destruct (Hall e2 Hin2) as [Hin|Hge].
        + assert (e2 = e) as ->.
          { apply (NoDup_fmap_elem_eq LRU.key (LRU.entries (providerCache w1)));
              [done..|congruence]. }
          congruence.
        + split; [lia|]. intros Hfind. congruence.
      - split; [simpl; lia|done]. }
    split_and!; [|done|done].
    intros ->. lia.
Qed.

Lemma handle_reused_until_expiry_witness :
  exists w3,
    getProviderInstance "p1"
      (getProviderInstance "p2"
         (set_clock 7200005 (getProviderInstance "default" (startup demo_config ∅ 5)).1)).1
    = (w3, Return (mkOpenAI 0 "http://a" "k1" None))
    /\ next_oid w3 = 2%nat.
Proof.
  destruct (handle_reused_until_expiry demo_config ∅ (startup demo_config ∅ 5)
              "p1" (mkProvider "p1" "http://a" "k1" ["m1"; "m2"])
              (reach_startup demo_config ∅ 5) eq_refl) as [_ Hafter].
  assert (getProviderInstance "p1" (startup demo_config ∅ 5)
          = ((getProviderInstance "default" (startup demo_config ∅ 5)).1,
             Return (mkOpenAI 0 "http://a" "k1" None))) as Hcall
    by (vm_compute; reflexivity).
  destruct (Hafter _ _ Hcall) as (e & Hfind & _ & _ & Hwithin & _).
  assert (e = LRU.mkEntry "p1" (mkOpenAI 0 "http://a" "k1" None) 5) as ->.
  { vm_compute in Hfind. by injection Hfind as <-. }
  assert (JsMap.size (registerProviders demo_config) <= 10)%nat as Hsize
    by (vm_compute; lia).
  destruct (Hwithin Hsize
    (getProviderInstance "p2"
       (set_clock 7200005 (getProviderInstance "default" (startup demo_config ∅ 5)).1)).1)
    as (w3 & Hagain & Hsame).
  - apply runs_lookup, runs_tick; [apply runs_here|..]; vm_compute; discriminate.
  - exists w3. split; [done|]. rewrite Hsame. vm_compute. reflexivity.
Defined.

(** With eleven providers, ten lookups of other names between two lookups of
    ["p0"], all at the same clock reading, push the client of ["p0"] out of
    the cache: the second lookup builds another one. *)
Lemma shared_handle_within_ttl_counterexample :
  ~ lookups_within_ttl_share_handle eleven_config ∅.
Proof.
  intros Hclaim.
  pose (w := startup eleven_config ∅ 1).
  pose (w1 := (getProviderInstance "p0" w).1).
  pose (w2 :=
    (getProviderInstance "p10" (getProviderInstance "p9" (getProviderInstance "p8"
    (getProviderInstance "p7" (getProviderInstance "p6" (getProviderInstance "p5"
    (getProviderInstance "p4" (getProviderInstance "p3" (getProviderInstance "p2"
    (getProviderInstance "p1" w1).1).1).1).1).1).1).1).1).1).1).
  assert (getProviderInstance "p0" w = (w1, Return (mkOpenAI 0 "http://a" "k" None)))
    as Hfirst by (vm_compute; reflexivity).
  assert (getProviderInstance "p0" w2
          = ((getProviderInstance "p0" w2).1, Return (mkOpenAI 11 "http://a" "k" None)))
    as Hsecond by (vm_compute; reflexivity).
  assert (runs_until (clock w1 + cache_ttl) w1 w2) as Hruns
    by (do 10 apply runs_lookup; apply runs_here).
  pose proof (Hclaim w "p0" _ w1 w2 _ _ (reach_startup eleven_config ∅ 1)
                Hfirst Hruns Hsecond) as Heq.
  discriminate Heq.
Qed.

(** ** The order of the cache is the order of last use *)

Lemma served_reachable config env0 hist w :
  served config env0 hist w -> reachable config env0 w.
Proof.
  induction 1; [apply reach_startup|by apply reach_tick|by apply reach_lookup
               |by apply reach_output].
Qed.

Lemma reachable_served config env0 w :
  reachable config env0 w -> exists hist, served config env0 hist w.
Proof.
  induction 1 as [now|w now Hreach [hist IH] Hle|w providerName Hreach [hist IH]
                  |w l r Hreach [hist IH]].
  - exists []. apply served_startup.
  - exists hist. by apply served_tick.
  - eexists. by apply served_lookup.
  - exists hist. by apply served_output.
Qed.

Lemma filter_out_sublist (k : string) (l : list string) :
  List.filter (fun k' => negb (String.eqb k' k)) l `sublist_of` l.
Proof.
  induction l as [|a l IH]; [constructor|].
  simpl. destruct (negb _); by constructor.
Qed.

Lemma elem_of_filter_out (k b : string) (l : list string) :
  b ∈ List.filter (fun k' => negb (String.eqb k' k)) l -> b ≠ k.
Proof.
  intros [_ Hb]%list_elem_of_In%filter_In.
  apply negb_true_iff in Hb. by apply String.eqb_neq.
Qed.

Lemma sublist_filter_out (k : string) (l l' : list string) :
  l `sublist_of` l' -> k ∉ l ->
  l `sublist_of` List.filter (fun k' => negb (String.eqb k' k)) l'.
Proof.
  induction 1 as [|x l l' Hsub IH|x l l' Hsub IH]; intros Hnot.
  - constructor.
  - apply not_elem_of_cons in Hnot as [Hne Hnot].
    assert (String.eqb x k = false) as E by (apply String.eqb_neq; congruence).
    rewrite /= E /=. constructor. by apply IH.
  - simpl. destruct (negb _); [constructor|]; by apply IH.
Qed.

Lemma pair_sublist_used_after hist a b :
  [a; b] `sublist_of` recency hist -> used_after hist a b.
Proof.
  induction hist as [|k hist IH]; simpl.
  - intros Hsub. apply sublist_nil_r in Hsub. discriminate.
  - intros [Hsub|(l0 & [= <- <-] & Hsub)]%sublist_cons_r.
    + assert (b ≠ k) as Hne.
      { apply (elem_of_filter_out k b (recency hist)).
        eapply elem_of_sublist; [|exact Hsub]. apply list_elem_of_further. constructor. }
      destruct IH as (later & earlier & -> & Hnot).
      { etrans; [exact Hsub|apply filter_out_sublist]. }
      exists (k :: later), earlier. split; [done|].
      apply not_elem_of_cons. by split.
    + exists [], hist. split; [done|]. apply not_elem_of_nil.
Qed.

Lemma pair_sublist_snoc {A} (a b : A) (l : list A) :
  a ∈ l -> [a; b] `sublist_of` l ++ [b].
Proof.
  intros (l1 & l2 & ->)%list_elem_of_split.
  rewrite -assoc. apply sublist_inserts_l. simpl. constructor.
  apply sublist_inserts_l. done.
Qed.

Lemma remove_shorter {V} k (l : list (LRU.entry V)) e :
  LRU.find k l = Some e -> (length (LRU.remove k l) < length l)%nat.
Proof.
  induction l as [|a l IH]; [done|].
  rewrite find_cons remove_cons. destruct (String.eqb _ _).
  - intros _. pose proof (sublist_length _ _ (remove_sublist k l)). simpl. lia.
  - intros Hf. specialize (IH Hf). simpl. lia.
Qed.

Lemma snoc_removelast {A} (l : list A) :
  l ≠ [] -> exists kept evicted, l = kept ++ [evicted] /\ removelast l = kept.
Proof.
  intros Hne. destruct (exists_last Hne) as (kept & evicted & ->).
  exists kept, evicted. split; [done|]. apply removelast_last.
Qed.

(** The cache lists its keys in the order of their last use. *)
Lemma served_recency config env0 hist w :
  served config env0 hist w ->
  LRU.keys (providerCache w) `sublist_of` recency hist.
Proof.
  induction 1 as [now|hist w now Hserved IH Hle|hist w providerName Hserved IH
                  |hist w l r Hserved IH].
  - constructor.
  - done.
  - destruct (JsMap.get providerName (Providers w)) as [provider|] eqn:Hget; last first.
    { by rewrite getProviderInstance_eq Hget. }
    destruct (lookup_entry_in_front w providerName provider Hget)
      as (e & rest & n & -> & Hkey & Hnone & Hsub & _).
    rewrite /with_entries /set_cache /LRU.keys.
    cbn [fst providerCache LRU.entries recency]. rewrite fmap_cons Hkey.
    constructor. apply sublist_filter_out.
    + etrans; [|exact IH]. by apply fmap_sublist.
    + by apply find_None_iff.
  - done.
Qed.

(** C8: in every state the running service can reach, the cache has one
    entry per provider name and at most 10 entries, with a time to live of
    2 hours (7200000 ms), and lists its keys in the order of their last use.
    A lookup that finds the entry of its provider no older than that
    returns the cached client and makes the entry the most recently used.
    A lookup that finds the entry older than that (the clock not having read
    0 when the entry was stored) and returns, has evicted the old client and
    stored a newly built one, evicting nothing else.  A lookup that finds
    no entry and returns has stored a newly built client in front; below the
    bound nothing is evicted, and at the bound exactly the last entry is,
    which is the least recently used: every entry that stays has been used
    after the last use of the evicted one. *)
Theorem cache_bounded_lru_one_per_name config env0 hist w :
  served config env0 hist w ->
  NoDup (LRU.keys (providerCache w))
  /\ (LRU.size (providerCache w) <= 10)%nat
  /\ LRU.max (providerCache w) = 10%nat
  /\ LRU.ttl (providerCache w) = 7200000
  /\ LRU.keys (providerCache w) `sublist_of` recency hist
  /\ forall providerName provider,
       JsMap.get providerName (Providers w) = Some provider ->
       (forall e,
          LRU.find (name provider) (LRU.entries (providerCache w)) = Some e ->
          clock w <= LRU.start e + 7200000 ->
          getProviderInstance providerName w
          = (with_entries w
               (e :: LRU.remove (name provider) (LRU.entries (providerCache w))),
             Return (LRU.value e)))
       /\ (forall e w' h,
             LRU.find (name provider) (LRU.entries (providerCache w)) = Some e ->
             LRU.start e ≠ 0 ->
             LRU.start e + 7200000 < clock w ->
             getProviderInstance providerName w = (w', Return h) ->
             h = new_handle w provider
             /\ LRU.entries (providerCache w')
                = fresh_entry w provider
                    :: LRU.remove (name provider) (LRU.entries (providerCache w))
             /\ Forall (fun e' => oid (LRU.value e') ≠ oid (LRU.value e))
                       (LRU.entries (providerCache w')))
       /\ (forall w' h,
             LRU.find (name provider) (LRU.entries (providerCache w)) = None ->
             getProviderInstance providerName w = (w', Return h) ->
             h = new_handle w provider
             /\ ((LRU.size (providerCache w) < 10)%nat ->
                 LRU.entries (providerCache w')
                 = fresh_entry w provider :: LRU.entries (providerCache w))
             /\ (LRU.size (providerCache w) = 10%nat ->
                 exists kept evicted,
                   LRU.entries (providerCache w) = kept ++ [evicted]
                   /\ LRU.entries (providerCache w') = fresh_entry w provider :: kept
                   /\ forall e', e' ∈ kept ->
                                 used_after hist (LRU.key e') (LRU.key evicted))).
Proof.
  intros Hserved.
  pose proof (served_reachable _ _ _ _ Hserved) as Hreach.
  pose proof (served_recency _ _ _ _ Hserved) as Horder.
  destruct (reachable_cache_ok _ _ _ Hreach) as [Hk Hs Hm Ht Ho Ha].
  split_and!; try done.
  intros providerName provider Hget. split_and!.
  - intros e Hfind Hle. apply lookup_hit_eq; [done..|].
    apply isStale_false_of_le. by rewrite Ht.
  - intros e w' h Hfind Hstart Hlate Hcall.
    destruct (getProviderInstance_cases w providerName provider Hget)
      as [e' Hfind' Hstale|l' Hl']; injection Hcall as <- <-.
    { rewrite Hfind in Hfind'. injection Hfind' as <-.
      rewrite isStale_true_of_lt // in Hstale. }
    destruct Hl' as [[Hnone _]|(e' & _ & _ & ->)]; [by rewrite Hfind in Hnone|].
    destruct (find_Some_inv _ _ _ Hfind) as [Hin Hkey].
    rewrite /with_entries /set_cache. cbn [fst providerCache LRU.entries].
    pose proof (remove_shorter _ _ _ Hfind) as Hshort.
    rewrite /LRU.size in Hs. rewrite Hm.
    destruct (Nat.leb_spec cache_max
                (length (LRU.remove (name provider) (LRU.entries (providerCache w)))))
      as [Hfull|_]; [lia|].
    split_and!; [done..|].
    apply Forall_cons. split.
    + rewrite ->Forall_forall in Ha. specialize (Ha e Hin). simpl in *. lia.
    + apply Forall_forall. intros e2 [Hin2 Hne]%elem_of_remove Heq.
      apply Hne. rewrite -Hkey. f_equal.
      by apply (NoDup_fmap_elem_eq _ _ _ _ Ho).
  - intros w' h Hfind Hcall.
    destruct (getProviderInstance_cases w providerName provider Hget)
      as [e' Hfind' Hstale|l' Hl']; injection Hcall as <- <-.
    { by rewrite Hfind in Hfind'. }
    destruct Hl' as [[_ ->]|(e' & Hfind' & _)]; [|by rewrite Hfind in Hfind'].
    rewrite /with_entries /set_cache /LRU.size. cbn [fst providerCache LRU.entries].
    rewrite Hm. split_and!; [done| |].
    + intros Hlt.
      by destruct (Nat.leb_spec cache_max (length (LRU.entries (providerCache w))))
        as [Hfull|_]; [rewrite /cache_max in Hfull; lia|].
    + intros Hfull.
      destruct (Nat.leb_spec cache_max (length (LRU.entries (providerCache w))))
        as [_|Hlt]; [|rewrite /cache_max in Hlt; lia].
      destruct (snoc_removelast (LRU.entries (providerCache w)))
        as (kept & evicted & Heq & Hkept).
      { intros Hnil. by rewrite Hnil in Hfull. }
      exists kept, evicted. split_and!; [done|by rewrite Hkept|].
      intros e' Hin. apply pair_sublist_used_after.
      etrans; [|exact Horder].
      rewrite /LRU.keys Heq fmap_app /=.
      apply pair_sublist_snoc. by apply list_elem_of_fmap_2.
Qed.

Lemma cache_bounded_lru_one_per_name_witness :
  LRU.keys (providerCache
     (getProviderInstance "default"
        (set_clock 9 (getProviderInstance "p2"
                        (getProviderInstance "p1" (startup demo_config ∅ 5)).1).1)).1)
  `sublist_of` ["p1"; "p2"].
Proof.
  apply (cache_bounded_lru_one_per_name demo_config ∅ ["p1"; "p2"; "p1"]).
  apply (served_lookup demo_config ∅ ["p2"; "p1"]
           (set_clock 9 (getProviderInstance "p2"
                           (getProviderInstance "p1" (startup demo_config ∅ 5)).1).1)
           "default").
  apply served_tick; [|vm_compute; discriminate].
  apply (served_lookup demo_config ∅ ["p1"]
           (getProviderInstance "p1" (startup demo_config ∅ 5)).1 "p2").
  apply (served_lookup demo_config ∅ [] (startup demo_config ∅ 5) "p1").
  apply served_startup.
Defined.

(** ** The alias of the first provider *)

(** C9: when ["default"] is the alias of the first named provider, the
    registry holds one record under ["default"] and under that provider's
    name, and the cache key is that record's [name]; so a lookup of
    ["default"] and a lookup of the provider's own name are the same
    computation.  Both return the cached client, building nothing, when the
    cache holds one for the provider that is no older than 2 hours; both
    return a client in any case when no proxy is configured.  After a lookup
    under either name has returned a client, a lookup under the other name
    returns this same instance and builds nothing: right away, and, when
    the registry has at most 10 names, after whatever lookups follow until
    2 hours after the client was built. *)
Theorem default_alias_returns_shared_handle config env0 w p ps :
  has_default_triple config = false ->
  cfg_Providers config = Some (p :: ps) ->
  reachable config env0 w ->
  exists q,
    JsMap.get "default" (registerProviders config) = Some q
    /\ JsMap.get (name p) (registerProviders config) = Some q
    /\ name q = name p
    /\ getProviderInstance "default" w = getProviderInstance (name p) w
    /\ (forall e,
          LRU.find (name p) (LRU.entries (providerCache w)) = Some e ->
          clock w <= LRU.start e + 2 * 60 * 60 * 1000 ->
          exists w1,
            getProviderInstance "default" w = (w1, Return (LRU.value e))
            /\ getProviderInstance (name p) w = (w1, Return (LRU.value e))
            /\ next_oid w1 = next_oid w)
    /\ (getOpenAICommonOptions env0 = None ->
        exists h w1,
          getProviderInstance "default" w = (w1, Return h)
          /\ getProviderInstance (name p) w = (w1, Return h))
    /\ (forall n1 n2 h w1,
          n1 ∈ ["default"; name p] -> n2 ∈ ["default"; name p] ->
          getProviderInstance n1 w = (w1, Return h) ->
          exists e,
            LRU.find (name p) (LRU.entries (providerCache w1)) = Some e
            /\ LRU.value e = h
            /\ (exists w2,
                  getProviderInstance n2 w1 = (w2, Return h)
                  /\ next_oid w2 = next_oid w1)
            /\ ((JsMap.size (registerProviders config) <= 10)%nat ->
                forall w2,
                  runs_until (LRU.start e + 2 * 60 * 60 * 1000) w1 w2 ->
                  exists w3,
                    getProviderInstance n2 w2 = (w3, Return h)
                    /\ next_oid w3 = next_oid w2)).
Proof.
  intros Htriple Hl Hreach.
  destruct (alias_registry config p ps Htriple Hl) as (q & Hd & _ & Hp & Hn & _).
  pose proof (reachable_Providers _ _ _ Hreach) as HP.
  destruct (reachable_cache_ok _ _ _ Hreach) as [_ _ _ Ht _ _].
  assert (getProviderInstance "default" w = getProviderInstance (name p) w) as Hsame
    by by rewrite !getProviderInstance_eq HP Hd Hp.
  assert (forall n, n ∈ ["default"; name p] ->
                    JsMap.get n (registerProviders config) = Some q) as Hboth.
  { intros n [->|[->|[]%elem_of_nil]%elem_of_cons]%elem_of_cons; done. }
  exists q. split_and!; [done..| | |].
  - intros e Hfind Hle. rewrite -Hsame. rewrite -Hn in Hfind.
    rewrite (lookup_hit_eq w "default" q e); [by rewrite HP|done| |by eexists].
    apply isStale_false_of_le. by rewrite Ht.
  - intros _. rewrite -Hsame.
    assert (JsMap.get "default" (Providers w) = Some q) as Hget by by rewrite HP.
    destruct (getProviderInstance_cases w "default" q Hget); eauto.
  - intros n1 n2 h w1 Hn1 Hn2 Hcall.
    assert (JsMap.get n1 (Providers w) = Some q) as Hget1 by (rewrite HP; auto).
    destruct (lookup_leaves_live_entry w n1 q h w1 Ht Hget1 Hcall)
      as (e & Hfind1 & Hval & Hlive & _).
    assert (reachable config env0 w1) as Hreach1.
    { replace w1 with (getProviderInstance n1 w).1 by by rewrite Hcall.
      by apply reach_lookup. }
    assert (forall w2, reachable config env0 w2 ->
              LRU.find (name q) (LRU.entries (providerCache w2)) = Some e ->
              LRU.start e = 0 \/ clock w2 <= LRU.start e + cache_ttl ->
              exists w3, getProviderInstance n2 w2 = (w3, Return h)
                         /\ next_oid w3 = next_oid w2) as Hhit.
    { intros w2 Hreach2 Hfind2 Hlive2.
      destruct (reachable_cache_ok _ _ _ Hreach2) as [_ _ _ Ht2 _ _].
      eexists. split.
      - rewrite -Hval. apply lookup_hit_eq; [|done|by apply live_not_stale].
        rewrite (reachable_Providers _ _ _ Hreach2). auto.
      - done. }
    exists e. rewrite -Hn. split_and!; [done|done|by apply Hhit|].
    intros Hsize w2 Hruns.
    destruct (entry_kept_along_run config env0 w1 w2 (name q) e
                Hreach1 Hsize Hfind1 Hlive Hruns) as (Hreach2 & Hlive2 & Hfind2).
    by apply Hhit.
Qed.

Lemma default_alias_returns_shared_handle_witness :
  exists h w1 w2,
    getProviderInstance "default" (startup demo_config ∅ 5) = (w1, Return h)
    /\ getProviderInstance "p1" w1 = (w2, Return h)
    /\ next_oid w2 = next_oid w1.
Proof.
  destruct (default_alias_returns_shared_handle demo_config ∅ (startup demo_config ∅ 5)
              (mkProvider "p1" "http://a" "k1" ["m1"; "m2"])
              [mkProvider "p2" "http://b" "k2" ["m3"]]
              eq_refl eq_refl (reach_startup demo_config ∅ 5))
    as (q & _ & _ & _ & _ & _ & Hreturns & Hshared).
  destruct (Hreturns eq_refl) as (h & w1 & Hcall & _).
  destruct (Hshared "default" "p1" h w1) as (e & _ & _ & (w2 & Hagain & Hbuilt) & _).
  - constructor.
  - apply list_elem_of_further. constructor.
  - exact Hcall.
  - by exists h, w1, w2.
Defined.
